(** * nettime: timing of the phases of one HTTP request

    A shallow embedding of [lib/nettime.js] (the prober and the
    multi-request loop), of the averaging fold of [bin/nettime] and of the
    timing helpers of [lib/timings.js].

    JavaScript values are modelled as follows: a [process.hrtime] pair
    [[seconds, nanoseconds]] is a pair of integers; an object used as a
    dictionary with known string keys ([timings]) is a [gmap string _];
    an object whose key order is observable (HTTP headers) is an
    association list; [undefined] is [None]; a [Buffer] and a string are
    both [string]s. *)

From stdpp Require Import gmap strings list fin_maps pretty.
From Stdlib Require Import ZArith QArith Qround.

Local Open Scope Z_scope.

(** ** Timing helpers *)

(** A [process.hrtime] value. *)
Definition hrtime : Type := Z * Z.

Definition seconds (t : hrtime) : Z := t.1.
Definition nanos (t : hrtime) : Z := t.2.

(** Nanoseconds in one second, [1e9]. *)
Definition NS_PER_SEC : Z := 1000000000.

(** A Timestamp of the data model: never negative, nanoseconds below one
    second. *)
Definition valid (t : hrtime) : Prop :=
  0 <= seconds t /\ 0 <= nanos t < NS_PER_SEC.

(** Monotonic order of Timestamps. *)
Definition hr_le (a b : hrtime) : Prop :=
  seconds a < seconds b \/ (seconds a = seconds b /\ nanos a <= nanos b).

(** Modelled from the spec: [getDuration] of lib/timings.js, which is not
    among the sources.  "Returns end - start as a Timestamp-shaped
    duration, where subtraction is performed with nanosecond borrow (if
    end.nanos < start.nanos, borrow one second)". *)
Definition getDuration (start end_ : hrtime) : hrtime :=
  let s := seconds end_ - seconds start in
  let n := nanos end_ - nanos start in
  if decide (nanos end_ < nanos start) then (s - 1, n + NS_PER_SEC) else (s, n).

(** [Math.round]: the nearest integer, halves going up. *)
Definition round (q : Q) : Z := Qfloor (q + (1 # 2))%Q.

(** Modelled from the spec: [getMilliseconds] of lib/timings.js.
    "duration.seconds * 1000 + round(duration.nanos / 1e6), returned as an
    integer (round-half-up)". *)
Definition getMilliseconds (d : hrtime) : Z :=
  seconds d * 1000 + round (inject_Z (nanos d) / inject_Z 1000000)%Q.

(** A duration as one count of nanoseconds, and back. *)
Definition toNanoseconds (d : hrtime) : Z := seconds d * NS_PER_SEC + nanos d.
Definition fromNanoseconds (n : Z) : hrtime :=
  (n / NS_PER_SEC, n mod NS_PER_SEC).

(** Modelled from the spec: [computeAverageDurations] of lib/timings.js.
    One pass over the runs keeps, per phase, the sum of the durations in
    nanoseconds and the number of runs that had the phase; the mean is
    "rounded down to integer nanoseconds" and "split back into
    seconds+nanoseconds". *)
Definition addRun (acc : gmap string (Z * Z)) (run : gmap string hrtime)
  : gmap string (Z * Z) :=
  union_with (fun a b => Some (a.1 + b.1, a.2 + b.2))
             acc ((fun d => (toNanoseconds d, 1)) <$> run).

Definition computeAverageDurations (multipleTimings : list (gmap string hrtime))
  : gmap string hrtime :=
  (fun a => fromNanoseconds (a.1 / a.2)) <$> foldl addRun ∅ multipleTimings.

(** The spec's wording of [average], to compare the pass above with: the
    durations of phase [p] in "the runs where that phase is present", and
    their arithmetic mean. *)
Definition present (p : string) (runs : list (gmap string hrtime))
  : list hrtime :=
  omap (fun run => run !! p) runs.

Definition sumNanoseconds (ds : list hrtime) : Z :=
  foldr Z.add 0 (toNanoseconds <$> ds).

Definition mean (ds : list hrtime) : hrtime :=
  fromNanoseconds (sumNanoseconds ds / Z.of_nat (length ds)).

(** Modelled from the spec: [createTimingsFromDurations] of
    lib/timings.js.  "Returns absolute Timestamps by adding each duration
    to base", base defaulting to [(0,0)]. *)
Definition addTime (base d : hrtime) : hrtime :=
  fromNanoseconds (toNanoseconds base + toNanoseconds d).

Definition createTimingsFromDurations (durations : gmap string hrtime)
    (startTime : option hrtime) : gmap string hrtime :=
  addTime (default (0, 0) startTime) <$> durations.

(** ** JavaScript values *)

(** A number or a string; [undefined] is the [None] of [option Value]. *)
Inductive Value :=
  | Num (n : Z)
  | Str (s : string).

#[global] Instance Value_eq_dec : EqDecision Value.
Proof. solve_decision. Defined.

(** Conversion to a string, as [+] and template literals do it. *)
Definition toString (v : option Value) : string :=
  match v with
  | Some (Num n) => pretty n
  | Some (Str s) => s
  | None => "undefined"
  end.

Definition strOrUndefined (s : option string) : string := default "undefined" s.

(** Truthiness of an optional string and of an optional number. *)
Definition truthyStr (s : option string) : bool :=
  match s with
  | Some s => bool_decide (s <> "")
  | None => false
  end.

Definition truthyNum (n : option Z) : bool :=
  match n with
  | Some n => bool_decide (n <> 0)
  | None => false
  end.

(** An object holding headers: keys in insertion order. *)
Definition Headers : Type := list (string * Value).

(** [headers[key]] *)
Fixpoint getHeader (key : string) (headers : Headers) : option Value :=
  match headers with
  | [] => None
  | (k, v) :: rest => if decide (k = key) then Some v else getHeader key rest
  end.

(** [headers[key] = v]: an existing key keeps its place. *)
Fixpoint setHeader (key : string) (v : Value) (headers : Headers) : Headers :=
  match headers with
  | [] => [(key, v)]
  | (k, x) :: rest =>
      if decide (k = key) then (k, v) :: rest
      else (k, x) :: setHeader key v rest
  end.

(** [Array.prototype.join] *)
Fixpoint join (sep : string) (parts : list string) : string :=
  match parts with
  | [] => ""
  | [p] => p
  | p :: rest => p +:+ sep +:+ join sep rest
  end.

(** The double quote character. *)
Definition dquote : string := String (Ascii.ascii_of_nat 34) EmptyString.

(** ** Options, results and errors (index.d.ts) *)

Record NettimeRequestCredentials := {
  username : string;
  password : string
}.

Record NettimeOptions := {
  opt_url : string;
  opt_credentials : option NettimeRequestCredentials;
  opt_method : option string;
  opt_headers : option Headers;
  opt_timeout : option Z;
  opt_rejectUnauthorized : option bool;
  opt_requestCount : option Z;
  opt_requestDelay : option Z;
  opt_outputFile : option string;
  opt_returnResponse : bool;
  opt_includeHeaders : bool;
  opt_appendToOutput : bool;
  opt_failOnOutputFileError : option bool;
  opt_httpVersion : option string;
  opt_data : option string
}.

(** [options.appendToOutput = v] *)
Definition setAppendToOutput (v : bool) (o : NettimeOptions) : NettimeOptions :=
  {| opt_url := opt_url o; opt_credentials := opt_credentials o;
     opt_method := opt_method o; opt_headers := opt_headers o;
     opt_timeout := opt_timeout o;
     opt_rejectUnauthorized := opt_rejectUnauthorized o;
     opt_requestCount := opt_requestCount o;
     opt_requestDelay := opt_requestDelay o;
     opt_outputFile := opt_outputFile o;
     opt_returnResponse := opt_returnResponse o;
     opt_includeHeaders := opt_includeHeaders o;
     opt_appendToOutput := v;
     opt_failOnOutputFileError := opt_failOnOutputFileError o;
     opt_httpVersion := opt_httpVersion o; opt_data := opt_data o |}.

(** The options a bare URL string stands for ([options = { url }]). *)
Definition bareURL (url : string) : NettimeOptions :=
  {| opt_url := url; opt_credentials := None; opt_method := None;
     opt_headers := None; opt_timeout := None;
     opt_rejectUnauthorized := None; opt_requestCount := None;
     opt_requestDelay := None; opt_outputFile := None;
     opt_returnResponse := false; opt_includeHeaders := false;
     opt_appendToOutput := false; opt_failOnOutputFileError := None;
     opt_httpVersion := None; opt_data := None |}.

(** [NettimeResponse]: the fields after [timings] are set only when a
    response was seen, [headers] and [response] only on request. *)
Record Result := {
  res_timings : gmap string hrtime;
  res_httpVersion : option string;
  res_statusCode : option Value;
  res_statusMessage : option string;
  res_headers : option Headers;
  res_response : option string
}.

Definition setTimings (t : gmap string hrtime) (r : Result) : Result :=
  {| res_timings := t; res_httpVersion := res_httpVersion r;
     res_statusCode := res_statusCode r;
     res_statusMessage := res_statusMessage r;
     res_headers := res_headers r; res_response := res_response r |}.

(** A JavaScript [Error] with its optional [code]. *)
Record JsError := {
  message : string;
  code : option string
}.

(** How a promise ended. *)
Inductive Outcome (A : Type) :=
  | Resolved (value : A)
  | Rejected (error : JsError).
Arguments Resolved {A} value.
Arguments Rejected {A} error.

(** ** The platform *)

(** The fields of a WHATWG [URL] that [parseURL] reads. *)
Record URLRecord := {
  url_protocol : string;
  url_username : string;
  url_password : string;
  url_host : string;
  url_hostname : string;
  url_port : string;
  url_pathname : string;
  url_search : string
}.

(** The error of [new URL] on an unparsable input. *)
Definition invalidURL (input : string) : JsError :=
  {| message := "Invalid URL: " +:+ input; code := Some "ERR_INVALID_URL" |}.

Definition insecureScheme : JsError :=
  {| message := "HTTP/2 supports only the " +:+ dquote +:+ "https:" +:+ dquote
                +:+ " protocol.";
     code := Some "ERR_INSECURE_SCHEME" |}.

Definition timedOut : JsError :=
  {| message := "Connection timed out."; code := Some "ETIMEDOUT" |}.

(** The [TypeError] of [request.abort()] when [request] is a stream of
    HTTP/2, which has no method [abort]. *)
Definition abortIsNotAFunction : JsError :=
  {| message := "request.abort is not a function"; code := None |}.

(** ** One probe: [makeSingleRequest] *)

(** The transport parameters built by [getParameters]. *)
Record Parameters := {
  prm_protocol : string;
  prm_auth : option string;
  prm_host : string;
  prm_hostname : string;
  prm_port : string;
  prm_pathname : string;
  prm_search : string;
  prm_path : option string;
  prm_headers : Headers;
  prm_method : string;
  prm_agent : bool;
  prm_rejectUnauthorized : option bool
}.

(** The message handed to the callback of an HTTP/1 request. *)
Record IncomingMessage := {
  msg_httpVersion : string;
  msg_statusCode : Z;
  msg_statusMessage : string;
  msg_headers : Headers
}.

(** The variable [response]: an [IncomingMessage] (HTTP/1), or the object
    assembled by the ['response'] handler (HTTP/2). *)
Record Response := {
  rsp_headers : Headers;
  rsp_httpVersion : option string;
  rsp_statusCode : option Value;
  rsp_statusMessage : option string
}.

Definition ofMessage (m : IncomingMessage) : Response :=
  {| rsp_headers := msg_headers m;
     rsp_httpVersion := Some (msg_httpVersion m);
     rsp_statusCode := Some (Num (msg_statusCode m));
     rsp_statusMessage := Some (msg_statusMessage m) |}.

(** What the transport, the file system and the timers report while one
    probe is in flight. *)
Inductive Event :=
  | EvSocket                               (* request 'socket' (HTTP/1) *)
  | EvLookup                               (* socket 'lookup' *)
  | EvConnect                              (* socket 'connect' *)
  | EvSecureConnect                        (* socket 'secureConnect' *)
  | EvClose                                (* socket 'close' *)
  | EvResponse (m : IncomingMessage)       (* callback of an HTTP/1 request *)
  | EvH2Response (headers : Headers)       (* stream 'response' (HTTP/2) *)
  | EvReadable (chunk : option string)     (* 'readable'; [read()] gave chunk *)
  | EvEnd                                  (* 'end' of the response *)
  | EvClientClosed                         (* callback of [client.close] *)
  | EvError (e : JsError)                  (* 'error': request, or h2 client *)
  | EvTimeout                              (* request 'timeout' *)
  | EvAbort                                (* request 'abort' *)
  | EvWritten (error : option JsError).    (* callback of [writeFile] *)

(** What the probe does to the outside: the calls it makes to the
    platform, one that throws included, and an exception that leaves a
    listener uncaught; what the process does about the latter is not the
    prober's to say. *)
Inductive Effect :=
  | Http1Request (secure : bool) (parameters : Parameters)
  | EnforceHTTP10
  | RequireHttp2
  | Http2Connect (origin : string) (rejectUnauthorized : option bool)
  | Http2Request (headers : Headers)
  | SetTimeout (ms : Z)
  | RequestWrite (data : string)
  | RequestEnd
  | RequestAbort
  | ClientClose
  | WriteFile (file data flag : string)
  | ConsoleError (text : string)
  | SetExitCode (n : Z)
  | Uncaught (error : JsError).

(** What the prober takes from Node.js: the [URL] constructor ([None]
    when it throws), the table [http.STATUS_CODES] (an object, so keyed
    by strings), base64 encoding, [os.EOL], and the exception, if any,
    that a call made by the executor of the promise throws, given the
    calls made before it: [require('http2')] throws where Node.js has no
    such module, and [http.request] and [https.request],
    [http2.connect], [client.request], [request.setTimeout],
    [request.write] and [request.end] validate their arguments and throw
    on those they refuse. *)
Class Node := {
  newURL : string -> option URLRecord;
  STATUS_CODES : gmap string string;
  base64 : string -> string;
  EOL : string;
  throws : list Effect -> Effect -> option JsError
}.

Inductive Transport := Http1 | Http2.

(** The variables of one call of [makeSingleRequest], the listeners that
    are attached, the promise and the effects so far. *)
Record Probe := {
  start : hrtime;
  timings : gmap string hrtime;
  data : option string;
  response : option Response;
  firstByte : bool;
  socketClosed : bool;
  transport : option Transport;            (* the request or client, once made *)
  onSocket : bool;                         (* [listenToSocket] ran *)
  onResponse : bool;                       (* [listenToResponse] ran *)
  closing : bool;                          (* [client.close] was called *)
  pendingWrites : nat;                     (* [writeFile] calls in flight *)
  settled : option (Outcome Result);       (* the promise *)
  effects : list Effect
}.

Definition withTimings (f : gmap string hrtime -> gmap string hrtime)
    (p : Probe) : Probe :=
  {| start := start p; timings := f (timings p); data := data p;
     response := response p; firstByte := firstByte p;
     socketClosed := socketClosed p; transport := transport p;
     onSocket := onSocket p; onResponse := onResponse p;
     closing := closing p; pendingWrites := pendingWrites p;
     settled := settled p; effects := effects p |}.

Definition withData (d : option string) (p : Probe) : Probe :=
  {| start := start p; timings := timings p; data := d;
     response := response p; firstByte := firstByte p;
     socketClosed := socketClosed p; transport := transport p;
     onSocket := onSocket p; onResponse := onResponse p;
     closing := closing p; pendingWrites := pendingWrites p;
     settled := settled p; effects := effects p |}.

Definition withResponse (r : option Response) (p : Probe) : Probe :=
  {| start := start p; timings := timings p; data := data p;
     response := r; firstByte := firstByte p;
     socketClosed := socketClosed p; transport := transport p;
     onSocket := onSocket p; onResponse := onResponse p;
     closing := closing p; pendingWrites := pendingWrites p;
     settled := settled p; effects := effects p |}.

Definition withFirstByte (b : bool) (p : Probe) : Probe :=
  {| start := start p; timings := timings p; data := data p;
     response := response p; firstByte := b;
     socketClosed := socketClosed p; transport := transport p;
     onSocket := onSocket p; onResponse := onResponse p;
     closing := closing p; pendingWrites := pendingWrites p;
     settled := settled p; effects := effects p |}.

Definition withTransport (t : option Transport) (p : Probe) : Probe :=
  {| start := start p; timings := timings p; data := data p;
     response := response p; firstByte := firstByte p;
     socketClosed := socketClosed p; transport := t;
     onSocket := onSocket p; onResponse := onResponse p;
     closing := closing p; pendingWrites := pendingWrites p;
     settled := settled p; effects := effects p |}.

Definition withOnSocket (b : bool) (p : Probe) : Probe :=
  {| start := start p; timings := timings p; data := data p;
     response := response p; firstByte := firstByte p;
     socketClosed := socketClosed p; transport := transport p;
     onSocket := b; onResponse := onResponse p;
     closing := closing p; pendingWrites := pendingWrites p;
     settled := settled p; effects := effects p |}.

Definition withOnResponse (b : bool) (p : Probe) : Probe :=
  {| start := start p; timings := timings p; data := data p;
     response := response p; firstByte := firstByte p;
     socketClosed := socketClosed p; transport := transport p;
     onSocket := onSocket p; onResponse := b;
     closing := closing p; pendingWrites := pendingWrites p;
     settled := settled p; effects := effects p |}.

Definition withClosing (b : bool) (p : Probe) : Probe :=
  {| start := start p; timings := timings p; data := data p;
     response := response p; firstByte := firstByte p;
     socketClosed := socketClosed p; transport := transport p;
     onSocket := onSocket p; onResponse := onResponse p;
     closing := b; pendingWrites := pendingWrites p;
     settled := settled p; effects := effects p |}.

Definition withPendingWrites (n : nat) (p : Probe) : Probe :=
  {| start := start p; timings := timings p; data := data p;
     response := response p; firstByte := firstByte p;
     socketClosed := socketClosed p; transport := transport p;
     onSocket := onSocket p; onResponse := onResponse p;
     closing := closing p; pendingWrites := n;
     settled := settled p; effects := effects p |}.

Definition withSettled (o : option (Outcome Result)) (p : Probe) : Probe :=
  {| start := start p; timings := timings p; data := data p;
     response := response p; firstByte := firstByte p;
     socketClosed := socketClosed p; transport := transport p;
     onSocket := onSocket p; onResponse := onResponse p;
     closing := closing p; pendingWrites := pendingWrites p;
     settled := o; effects := effects p |}.

Definition emit (e : Effect) (p : Probe) : Probe :=
  {| start := start p; timings := timings p; data := data p;
     response := response p; firstByte := firstByte p;
     socketClosed := socketClosed p; transport := transport p;
     onSocket := onSocket p; onResponse := onResponse p;
     closing := closing p; pendingWrites := pendingWrites p;
     settled := settled p; effects := effects p ++ [e] |}.

(** [resolve] and [reject] of the promise: only the first call counts. *)
Definition resolve (r : Result) (p : Probe) : Probe :=
  match settled p with
  | None => withSettled (Some (Resolved r)) p
  | Some _ => p
  end.

Definition reject (e : JsError) (p : Probe) : Probe :=
  match settled p with
  | None => withSettled (Some (Rejected e)) p
  | Some _ => p
  end.

(** The clock readings and the events of one probe: [process.hrtime()]
    when the request is made, when [makeHTTP2Request] listens to the
    socket of its client, and at each event. *)
Record Exchange := {
  x_start : hrtime;
  x_opened : hrtime;
  x_events : list (hrtime * Event)
}.

Section Prober.
Context `{Node}.
Variable options : NettimeOptions.

Definition getTiming (now : hrtime) (p : Probe) : hrtime :=
  getDuration (start p) now.

Definition returnResult (p : Probe) : Probe :=
  let result :=
    {| res_timings := timings p;
       res_httpVersion := response p ≫= rsp_httpVersion;
       res_statusCode := response p ≫= rsp_statusCode;
       res_statusMessage := response p ≫= rsp_statusMessage;
       res_headers :=
         if opt_includeHeaders options
         then rsp_headers <$> response p else None;
       res_response :=
         if opt_returnResponse options then data p else None |} in
  resolve result p.

Definition prependOutputHeader (r : Response) (p : Probe) : Probe :=
  let prolog :=
    ["HTTP/" +:+ strOrUndefined (rsp_httpVersion r) +:+ " " +:+
     toString (rsp_statusCode r) +:+ " " +:+
     strOrUndefined (rsp_statusMessage r)] in
  let allHeaders :=
    (fun kv : string * Value => kv.1 +:+ ": " +:+ toString (Some kv.2))
      <$> rsp_headers r in
  let prolog := prolog ++ allHeaders ++ [EOL] in
  withData ((fun d => join EOL prolog +:+ d) <$> data p) p.

Definition writeOutputFile (p : Probe) : Probe :=
  let p :=
    match response p with
    | Some r =>
        if opt_includeHeaders options then prependOutputHeader r p else p
    | None => p
    end in
  let flag := if opt_appendToOutput options then "a" else "w" in
  let file := default "" (opt_outputFile options) in
  withPendingWrites (S (pendingWrites p))
    (emit (WriteFile file (default "" (data p)) flag) p).

(** The callback given to [writeFile]; on success, and on a tolerated
    error, the promise of [writeOutputFile] resolves and [returnResult]
    runs. *)
Definition written (error : option JsError) (p : Probe) : Probe :=
  match pendingWrites p with
  | O => p
  | S n =>
      let p := withPendingWrites n p in
      match error with
      | Some e =>
          if decide (opt_failOnOutputFileError options = Some false)
          then returnResult
                 (emit (SetExitCode 2) (emit (ConsoleError (message e)) p))
          else reject e p
      | None => returnResult p
      end
  end.

Definition checkFirstByte (now : hrtime) (p : Probe) : Probe :=
  if firstByte p then p
  else withFirstByte true (withTimings <["firstByte" := getTiming now p]> p).

(** No statement of the source assigns [socketClosed]. *)
Definition checkSocketClosed (now : hrtime) (p : Probe) : Probe :=
  if socketClosed p then p
  else
    let p := withTimings <["socketClose" := getTiming now p]> p in
    if truthyStr (opt_outputFile options) && bool_decide (is_Some (data p))
    then writeOutputFile p
    else returnResult p.

Definition listenToSocket (now : hrtime) (p : Probe) : Probe :=
  withOnSocket true (withTimings <["socketOpen" := getTiming now p]> p).

Definition listenToResponse (p : Probe) : Probe := withOnResponse true p.

(** [let timeoutHandler]: declared, read by the timeout and abort
    handlers, never assigned. *)
Definition timeoutHandler : option unit := None.

(** The ['response'] handler of [makeHTTP2Request]. *)
Definition onHTTP2Response (headers : Headers) (p : Probe) : Probe :=
  let statusCode := getHeader ":status" headers in
  let statusMessage := STATUS_CODES !! toString statusCode in
  withResponse
    (Some {| rsp_headers := headers;
             rsp_httpVersion := opt_httpVersion options;
             rsp_statusCode := statusCode;
             rsp_statusMessage := statusMessage |}) p.

(** One event, given to the handlers that are attached by then.  Over
    HTTP/2 the listeners of the request, those of ['response'] and
    ['timeout'] included, are attached once [client.request] has
    returned, which is when [listenToResponse] runs.  The ['timeout']
    handler calls [request.abort()]: a [ClientRequest] aborts and the
    promise is rejected; a stream of HTTP/2 has no such method, so the
    handler throws before it reaches [reject]. *)
Definition handle (now : hrtime) (ev : Event) (p : Probe) : Probe :=
  match transport p with
  | None => p
  | Some tr =>
      match ev with
      | EvSocket =>
          match tr with Http1 => listenToSocket now p | Http2 => p end
      | EvLookup =>
          if onSocket p
          then withTimings <["dnsLookup" := getTiming now p]> p else p
      | EvConnect =>
          if onSocket p
          then withTimings <["tcpConnection" := getTiming now p]> p else p
      | EvSecureConnect =>
          if onSocket p
          then withTimings <["tlsHandshake" := getTiming now p]> p else p
      | EvClose => if onSocket p then checkSocketClosed now p else p
      | EvResponse m =>
          match tr with
          | Http1 => listenToResponse (withResponse (Some (ofMessage m)) p)
          | Http2 => p
          end
      | EvH2Response headers =>
          match tr with
          | Http2 => if onResponse p then onHTTP2Response headers p else p
          | Http1 => p
          end
      | EvReadable chunk =>
          if onResponse p then
            let p := checkFirstByte now p in
            match data p, chunk with
            | Some d, Some c => withData (Some (d +:+ c)) p
            | _, _ => p
            end
          else p
      | EvEnd =>
          if onResponse p then
            let p := withTimings <["contentTransfer" := getTiming now p]> p in
            match tr with
            | Http2 => withClosing true (emit ClientClose p)
            | Http1 => p
            end
          else p
      | EvClientClosed => if closing p then checkSocketClosed now p else p
      | EvError e => reject e p
      | EvTimeout =>
          if truthyNum (opt_timeout options) then
            match tr with
            | Http1 => reject timedOut (emit RequestAbort p)
            | Http2 =>
                if onResponse p then emit (Uncaught abortIsNotAFunction) p
                else p
            end
          else p
      | EvAbort =>
          if truthyNum (opt_timeout options) then
            match timeoutHandler with
            | Some _ => reject timedOut p
            | None => p
            end
          else p
      | EvWritten error => written error p
      end
  end.

(** *** [getParameters] *)

Definition parseURL (u : URLRecord) (headers : Headers) : Parameters :=
  {| prm_protocol := url_protocol u;
     prm_auth :=
       if bool_decide (url_username u <> "") then
         if bool_decide (url_password u <> "")
         then Some (url_username u +:+ "." +:+ url_password u)
         else Some (url_username u)
       else None;
     prm_host := url_host u;
     prm_hostname := url_hostname u;
     prm_port := url_port u;
     prm_pathname := url_pathname u;
     prm_search := url_search u;
     prm_path :=
       if bool_decide (url_pathname u <> "")
       then Some (url_pathname u +:+ url_search u) else None;
     prm_headers := headers;
     prm_method :=
       if truthyStr (opt_method options) then default "" (opt_method options)
       else if truthyStr (opt_data options) then "POST" else "GET";
     prm_agent := false;
     prm_rejectUnauthorized := None |}.

Definition withHeaders (h : Headers) (q : Parameters) : Parameters :=
  {| prm_protocol := prm_protocol q; prm_auth := prm_auth q;
     prm_host := prm_host q; prm_hostname := prm_hostname q;
     prm_port := prm_port q; prm_pathname := prm_pathname q;
     prm_search := prm_search q; prm_path := prm_path q;
     prm_headers := h; prm_method := prm_method q;
     prm_agent := prm_agent q;
     prm_rejectUnauthorized := prm_rejectUnauthorized q |}.

Definition setSecurity (q : Parameters) : Parameters :=
  {| prm_protocol := prm_protocol q; prm_auth := prm_auth q;
     prm_host := prm_host q; prm_hostname := prm_hostname q;
     prm_port := prm_port q; prm_pathname := prm_pathname q;
     prm_search := prm_search q; prm_path := prm_path q;
     prm_headers := prm_headers q; prm_method := prm_method q;
     prm_agent := prm_agent q;
     prm_rejectUnauthorized :=
       match opt_rejectUnauthorized options with
       | Some b => Some b
       | None => prm_rejectUnauthorized q
       end |}.

(** [setCredentials] and [setContentType] write to the object [headers],
    which is also [parameters.headers] and, when the caller gave headers,
    [options.headers].  The writes of one probe, those of
    [makeHTTP2Request] included, store again what an earlier probe with
    the same options stored, so each probe is given the headers of the
    options as they stand. *)
Definition setCredentials (headers : Headers) : Headers :=
  match opt_credentials options with
  | Some c =>
      let token := base64 (username c +:+ ":" +:+ password c) in
      setHeader "authorization" (Str ("Basic " +:+ token)) headers
  | None => headers
  end.

Definition truthyValue (v : option Value) : bool :=
  match v with
  | Some (Num n) => bool_decide (n <> 0)
  | Some (Str s) => bool_decide (s <> "")
  | None => false
  end.

Definition setContentType (headers : Headers) : Headers :=
  if truthyStr (opt_data options) then
    let d := default "" (opt_data options) in
    let headers :=
      if truthyValue (getHeader "content-type" headers) then headers
      else setHeader "content-type" (Str "application/x-www-form-urlencoded")
                     headers in
    setHeader "content-length" (Num (Z.of_nat (String.length d))) headers
  else headers.

(** [new URL(url)] throws on an invalid URL. *)
Definition getParameters : JsError + Parameters :=
  match newURL (opt_url options) with
  | None => inl (invalidURL (opt_url options))
  | Some u =>
      let headers := default [] (opt_headers options) in
      let parameters := setSecurity (parseURL u headers) in
      inr (withHeaders (setContentType (setCredentials headers)) parameters)
  end.

Definition getOrigin (parameters : Parameters) : string :=
  let origin := prm_protocol parameters +:+ "//" +:+ prm_hostname parameters in
  if bool_decide (prm_port parameters <> "")
  then origin +:+ ":" +:+ prm_port parameters else origin.

(** *** The requests *)

(** A call of the platform by the executor of the promise, [rest] being
    what the executor does after it.  The call is logged; an exception
    it throws ends the executor and rejects the promise, the listeners
    attached before it staying attached. *)
Definition call (e : Effect) (rest : Probe -> Probe) (p : Probe) : Probe :=
  match throws (effects p) e with
  | Some error => reject error (emit e p)
  | None => rest (emit e p)
  end.

Definition makeHTTP2Request (parameters : Parameters) (opened : hrtime)
    (rest : Probe -> Probe) (p : Probe) : Probe :=
  let origin := getOrigin parameters in
  call (Http2Connect origin (prm_rejectUnauthorized parameters))
    (fun p =>
       let p := listenToSocket opened (withTransport (Some Http2) p) in
       let headers := prm_headers parameters in
       let headers :=
         setHeader ":method" (Str (prm_method parameters)) headers in
       let headers :=
         setHeader ":path" (Str (prm_pathname parameters)) headers in
       call (Http2Request headers) (fun p => rest (listenToResponse p)) p)
    p.

Definition makeHTTP1Request (parameters : Parameters)
    (rest : Probe -> Probe) (p : Probe) : Probe :=
  let secure := bool_decide (prm_protocol parameters <> "http:") in
  call (Http1Request secure parameters)
    (fun p =>
       let p := withTransport (Some Http1) p in
       rest (if decide (opt_httpVersion options = Some "1.0")
             then emit EnforceHTTP10 p else p))
    p.

(** The variables as they are when the executor starts. *)
Definition initial (start : hrtime) : Probe :=
  {| start := start; timings := ∅;
     data :=
       if truthyStr (opt_outputFile options) || opt_returnResponse options
       then Some "" else None;
     response := None; firstByte := false; socketClosed := false;
     transport := None; onSocket := false; onResponse := false;
     closing := false; pendingWrites := 0; settled := None;
     effects := [] |}.

(** The end of the executor: timeout, request body, [request.end()]. *)
Definition sendRequest (p : Probe) : Probe :=
  let finish := call RequestEnd (fun p => p) in
  let write :=
    if truthyStr (opt_data options)
    then call (RequestWrite (default "" (opt_data options))) finish
    else finish in
  if truthyNum (opt_timeout options)
  then call (SetTimeout (default 0 (opt_timeout options))) write p
  else write p.

(** The executor of the promise.  An exception thrown by it rejects the
    promise. *)
Definition makeSingleRequest (start opened : hrtime) : Probe :=
  let p := initial start in
  match getParameters with
  | inl error => reject error p
  | inr parameters =>
      let httpVersion := opt_httpVersion options in
      let scheme := prm_protocol parameters in
      if decide (httpVersion = Some "2.0") then
        if decide (scheme <> "https:") then reject insecureScheme p
        else call RequireHttp2
                  (makeHTTP2Request parameters opened sendRequest) p
      else makeHTTP1Request parameters sendRequest p
  end.

(** The probe after all its events. *)
Definition probe (x : Exchange) : Probe :=
  foldl (fun p ev => handle ev.1 ev.2 p)
        (makeSingleRequest (x_start x) (x_opened x)) (x_events x).

(** What the caller is left with.  [result.timings] is the object
    [timings] itself, which the handlers go on writing to after the
    promise has resolved. *)
Definition outcome (p : Probe) : option (Outcome Result) :=
  match settled p with
  | Some (Resolved r) => Some (Resolved (setTimings (timings p) r))
  | o => o
  end.

End Prober.

(** ** The entry operation: [nettime] *)

(** The value of the promise: one result object, or an array. *)
Inductive Returned :=
  | One (result : Result)
  | Many (results : list Result).

(** What a run does, in order: a call of [makeSingleRequest] with the
    options object as it is then and the effects of that probe, or a call
    of [wait]. *)
Inductive Action :=
  | Request (options : NettimeOptions) (effects : list Effect)
  | Wait (milliseconds : Z).

(** A run: the promise ([None] while it never settles), the options
    object afterwards, and what was done. *)
Record Run := {
  returned : option (Outcome Returned);
  finalOptions : NettimeOptions;
  log : list Action
}.

Section Orchestrator.
Context `{Node}.
(** The network during the [i]-th call of [makeSingleRequest]. *)
Variable net : nat -> Exchange.

(** The [for] loop, with [n] iterations to go.  All events of a request
    are taken to arrive before the next request is made. *)
Fixpoint requests (requestDelay : option Z) (n i : nat)
    (options : NettimeOptions) (results : list Result) (trail : list Action)
    : Run :=
  match n with
  | O => {| returned := Some (Resolved (Many results));
            finalOptions := options; log := trail |}
  | S n =>
      let p := probe options (net i) in
      let trail := trail ++ [Request options (effects p)] in
      match outcome p with
      | None =>
          {| returned := None; finalOptions := options; log := trail |}
      | Some (Rejected e) =>
          {| returned := Some (Rejected e); finalOptions := options;
             log := trail |}
      | Some (Resolved result) =>
          let results := results ++ [result] in
          let trail :=
            if truthyNum requestDelay
            then trail ++ [Wait (default 0 requestDelay)] else trail in
          let options := setAppendToOutput true options in
          requests requestDelay n (S i) options results trail
      end
  end.

(** [requestCount > 1]; a comparison with [undefined] is false. *)
Definition greaterThanOne (requestCount : option Z) : bool :=
  match requestCount with
  | Some c => bool_decide (1 < c)
  | None => false
  end.

Definition nettime (options : NettimeOptions) : Run :=
  let requestCount := opt_requestCount options in
  let requestDelay := opt_requestDelay options in
  if greaterThanOne requestCount then
    requests requestDelay (Z.to_nat (default 0 requestCount)) 0 options [] []
  else
    let p := probe options (net 0%nat) in
    {| returned :=
         match outcome p with
         | Some (Resolved r) => Some (Resolved (One r))
         | Some (Rejected e) => Some (Rejected e)
         | None => None
         end;
       finalOptions := options;
       log := [Request options (effects p)] |}.

End Orchestrator.

(** ** The averaging fold of the command line: [computeAverageTimings] *)

Definition statusCodeMismatch (firstStatusCode statusCode : option Value)
  : JsError :=
  {| message := "Status code of the first request was " +:+
                toString firstStatusCode +:+ ", but " +:+ toString statusCode
                +:+ " was received later.";
     code := None |}.

(** The loop of [checkStatusCodes]; [None] when it does not throw. *)
Fixpoint checkStatusCodes (firstStatusCode : option Value)
    (results : list Result) : option JsError :=
  match results with
  | [] => None
  | r :: rest =>
      let statusCode := res_statusCode r in
      match firstStatusCode with
      | None => checkStatusCodes statusCode rest
      | Some _ =>
          if decide (firstStatusCode <> statusCode)
          then Some (statusCodeMismatch firstStatusCode statusCode)
          else checkStatusCodes firstStatusCode rest
      end
  end.

(** Destructuring [undefined] throws a [TypeError]. *)
Definition cannotDestructure : JsError :=
  {| message := "Cannot destructure property 'httpVersion' of 'firstResult'"
                +:+ " as it is undefined.";
     code := None |}.

Definition createAverageResult (firstResult : option Result)
    (averageDurations : gmap string hrtime) : JsError + Result :=
  match firstResult with
  | None => inl cannotDestructure
  | Some r =>
      let timings := createTimingsFromDurations averageDurations None in
      inr {| res_timings := timings;
             res_httpVersion := res_httpVersion r;
             res_statusCode := res_statusCode r;
             res_statusMessage := res_statusMessage r;
             res_headers := None; res_response := None |}
  end.

Definition computeAverageTimings (results : list Result) : JsError + Result :=
  match checkStatusCodes None results with
  | Some e => inl e
  | None =>
      let timings := res_timings <$> results in
      let averageDurations := computeAverageDurations timings in
      createAverageResult (results !! 0%nat) averageDurations
  end.

(** ** A platform and exchanges to run the model on *)

Module Sample.

Definition alphabet : string :=
  "ABCDEFGHIJKLMNOPQRSTUVWXYZabcdefghijklmnopqrstuvwxyz0123456789+/".

Definition digit (n : N) : string :=
  match String.get (N.to_nat n) alphabet with
  | Some c => String c EmptyString
  | None => ""
  end.

Fixpoint encode (bytes : list N) : string :=
  match bytes with
  | [] => ""
  | [a] =>
      let n := (a * 65536)%N in
      digit (n / 262144) +:+ digit (n / 4096 mod 64) +:+ "=="
  | [a; b] =>
      let n := (a * 65536 + b * 256)%N in
      digit (n / 262144) +:+ digit (n / 4096 mod 64) +:+
      digit (n / 64 mod 64) +:+ "="
  | a :: b :: c :: rest =>
      let n := (a * 65536 + b * 256 + c)%N in
      digit (n / 262144) +:+ digit (n / 4096 mod 64) +:+
      digit (n / 64 mod 64) +:+ digit (n mod 64) +:+ encode rest
  end.

Definition toBase64 (s : string) : string :=
  encode (Ascii.N_of_ascii <$> String.list_ascii_of_string s).

(** A parser for URLs of the shape [scheme://hostname/path], enough for
    the examples; anything else is refused as [new URL] refuses a
    relative URL. *)
Definition afterScheme (scheme rest : string) : URLRecord :=
  let cut := default (String.length rest) (String.index 0 "/" rest) in
  let hostname := String.substring 0 cut rest in
  let pathname := String.substring cut (String.length rest - cut) rest in
  {| url_protocol := scheme; url_username := ""; url_password := "";
     url_host := hostname; url_hostname := hostname; url_port := "";
     url_pathname := if bool_decide (pathname <> "") then pathname else "/";
     url_search := "" |}.

Definition parse (s : string) : option URLRecord :=
  if String.prefix "https://" s
  then Some (afterScheme "https:" (String.substring 8 (String.length s - 8) s))
  else if String.prefix "http://" s
  then Some (afterScheme "http:" (String.substring 7 (String.length s - 7) s))
  else None.

(** Some entries of [http.STATUS_CODES]. *)
Definition statusCodes : gmap string string :=
  list_to_map
    [("200", "OK"); ("201", "Created"); ("204", "No Content");
     ("301", "Moved Permanently"); ("302", "Found");
     ("304", "Not Modified"); ("400", "Bad Request");
     ("401", "Unauthorized"); ("403", "Forbidden"); ("404", "Not Found");
     ("500", "Internal Server Error"); ("503", "Service Unavailable")].

(** A platform that refuses no call of the executor. *)
Definition node : Node :=
  {| newURL := parse; STATUS_CODES := statusCodes; base64 := toBase64;
     EOL := String (Ascii.ascii_of_nat 10) EmptyString;
     throws := fun _ _ => None |}.

(** Options for a request of [url] with the given protocol version. *)
Definition request (url : string) (httpVersion : option string)
  : NettimeOptions :=
  {| opt_url := url; opt_credentials := None; opt_method := None;
     opt_headers := None; opt_timeout := None;
     opt_rejectUnauthorized := None; opt_requestCount := None;
     opt_requestDelay := None; opt_outputFile := None;
     opt_returnResponse := false; opt_includeHeaders := false;
     opt_appendToOutput := false; opt_failOnOutputFileError := None;
     opt_httpVersion := httpVersion; opt_data := None |}.

Definition withRun (count delay : option Z) (o : NettimeOptions)
  : NettimeOptions :=
  {| opt_url := opt_url o; opt_credentials := opt_credentials o;
     opt_method := opt_method o; opt_headers := opt_headers o;
     opt_timeout := opt_timeout o;
     opt_rejectUnauthorized := opt_rejectUnauthorized o;
     opt_requestCount := count; opt_requestDelay := delay;
     opt_outputFile := opt_outputFile o;
     opt_returnResponse := opt_returnResponse o;
     opt_includeHeaders := opt_includeHeaders o;
     opt_appendToOutput := opt_appendToOutput o;
     opt_failOnOutputFileError := opt_failOnOutputFileError o;
     opt_httpVersion := opt_httpVersion o; opt_data := opt_data o |}.

Definition withOutputFile (file : string) (o : NettimeOptions)
  : NettimeOptions :=
  {| opt_url := opt_url o; opt_credentials := opt_credentials o;
     opt_method := opt_method o; opt_headers := opt_headers o;
     opt_timeout := opt_timeout o;
     opt_rejectUnauthorized := opt_rejectUnauthorized o;
     opt_requestCount := opt_requestCount o;
     opt_requestDelay := opt_requestDelay o;
     opt_outputFile := Some file;
     opt_returnResponse := opt_returnResponse o;
     opt_includeHeaders := opt_includeHeaders o;
     opt_appendToOutput := opt_appendToOutput o;
     opt_failOnOutputFileError := opt_failOnOutputFileError o;
     opt_httpVersion := opt_httpVersion o; opt_data := opt_data o |}.

(** A server that answers [HTTP/<version> 200 OK] over HTTP/1. *)
Definition ok (version : string) : IncomingMessage :=
  {| msg_httpVersion := version; msg_statusCode := 200;
     msg_statusMessage := "OK";
     msg_headers := [("content-type", Str "text/plain")] |}.

(** A plain HTTP/1 exchange, clock in process time; the last event is
    the callback of [writeFile], should a file be written. *)
Definition http1 (version : string) : Exchange :=
  {| x_start := (100, 0); x_opened := (100, 0);
     x_events :=
       [((100, 1000000), EvSocket);
        ((100, 2000000), EvLookup);
        ((100, 30000000), EvConnect);
        ((100, 900000000), EvResponse (ok version));
        ((100, 900500000), EvReadable (Some "hello"));
        ((100, 901000000), EvReadable None);
        ((101, 100), EvEnd);
        ((101, 2000), EvClose);
        ((101, 900000), EvWritten None)] |}.

(** An HTTP/2 exchange answering with the given [:status]; the socket
    closes and the callback of [client.close] runs. *)
Definition http2 (status : Z) : Exchange :=
  {| x_start := (100, 0); x_opened := (100, 1000000);
     x_events :=
       [((100, 2000000), EvLookup);
        ((100, 30000000), EvConnect);
        ((100, 400000000), EvSecureConnect);
        ((100, 900000000),
         EvH2Response [(":status", Num status);
                       ("content-type", Str "text/plain")]);
        ((100, 900500000), EvReadable (Some "hello"));
        ((101, 100), EvEnd);
        ((101, 2000), EvClose);
        ((101, 3000), EvClientClosed);
        ((101, 900000), EvWritten None)] |}.

(** The same server at every request. *)
Definition steady : nat -> Exchange := fun _ => http1 "1.1".

Definition twice (delay : option Z) : NettimeOptions :=
  withRun (Some 2) delay (request "http://example.com/" None).

Definition twiceSaved : NettimeOptions :=
  withOutputFile "out.txt" (twice (Some 100)).

(** A result with the given status and no timings. *)
Definition status (n : Z) (text : string) : Result :=
  {| res_timings := ∅; res_httpVersion := Some "1.1";
     res_statusCode := Some (Num n); res_statusMessage := Some text;
     res_headers := None; res_response := None |}.

(** A resolver that reports twice, for the two address families: the
    exchange up to the first report, and what follows. *)
Definition firstLookup : list (hrtime * Event) :=
  [((100, 1000000), EvSocket);
   ((100, 2000000), EvLookup)].

Definition afterFirstLookup : list (hrtime * Event) :=
  [((100, 7000000), EvLookup);
   ((100, 30000000), EvConnect);
   ((100, 900000000), EvResponse (ok "1.1"));
   ((101, 100), EvEnd);
   ((101, 2000), EvClose)].

Definition lookupOnce : Exchange :=
  {| x_start := (100, 0); x_opened := (100, 0); x_events := firstLookup |}.

Definition lookupTwice : Exchange :=
  {| x_start := (100, 0); x_opened := (100, 0);
     x_events := firstLookup ++ afterFirstLookup |}.

End Sample.

(** ** Vocabulary of the statements *)

(** The sum and the count of the durations of one phase, if any. *)
Definition tally (ds : list hrtime) : option (Z * Z) :=
  match ds with
  | [] => None
  | _ => Some (sumNanoseconds ds, Z.of_nat (length ds))
  end.

(** The fields a result takes from the variable [response]. *)
Definition fromResponse (o : option Response) (r : Result) : Prop :=
  res_httpVersion r = o ≫= rsp_httpVersion /\
  res_statusCode r = o ≫= rsp_statusCode /\
  res_statusMessage r = o ≫= rsp_statusMessage.

(** A handler that leaves [response] and the transport alone and at most
    settles the promise, a result being read off [response]. *)
Definition settles (p p' : Probe) : Prop :=
  transport p' = transport p /\
  response p' = response p /\
  (settled p' = settled p \/
   (exists e, settled p' = Some (Rejected e)) \/
   (exists r, settled p' = Some (Resolved r) /\ fromResponse (response p) r)).

(** The responses the exchange [x] can leave in [response]. *)
Definition answers `{Node} (options : NettimeOptions) (x : Exchange)
    (o : option Response) : Prop :=
  o = None \/
  (opt_httpVersion options <> Some "2.0" /\
   exists now m,
     (now, EvResponse m) ∈ x_events x /\ o = Some (ofMessage m)) \/
  (opt_httpVersion options = Some "2.0" /\
   exists now headers,
     (now, EvH2Response headers) ∈ x_events x /\
     o = Some {| rsp_headers := headers;
                 rsp_httpVersion := Some "2.0";
                 rsp_statusCode := getHeader ":status" headers;
                 rsp_statusMessage :=
                   STATUS_CODES !! toString (getHeader ":status" headers) |}).

Definition matchesVersion (options : NettimeOptions) (t : option Transport)
  : Prop :=
  match t with
  | Some Http2 => opt_httpVersion options = Some "2.0"
  | Some Http1 => opt_httpVersion options <> Some "2.0"
  | None => True
  end.

(** A call that the executor of the promise makes. *)
Definition byExecutor (e : Effect) : Prop :=
  match e with
  | Http1Request _ _ | EnforceHTTP10 | RequireHttp2 | Http2Connect _ _
  | Http2Request _ | SetTimeout _ | RequestWrite _ | RequestEnd => True
  | _ => False
  end.

(** The variables of a probe while its executor runs: nothing received
    yet, and the socket listened to over HTTP/2 only. *)
Definition attached (options : NettimeOptions) (began opened : hrtime)
    (p : Probe) : Prop :=
  start p = began /\
  data p = (if truthyStr (opt_outputFile options) || opt_returnResponse options
            then Some "" else None) /\
  response p = None /\ firstByte p = false /\ socketClosed p = false /\
  closing p = false /\ pendingWrites p = O /\
  matchesVersion options (transport p) /\
  (onSocket p = true <-> transport p = Some Http2) /\
  (onResponse p = true -> transport p = Some Http2) /\
  timings p = (if onSocket p
               then <["socketOpen" := getDuration began opened]> ∅ else ∅) /\
  Forall byExecutor (effects p).

(** The request is made and listened to. *)
Definition listening (p : Probe) : Prop :=
  is_Some (transport p) /\ (transport p = Some Http2 -> onResponse p = true).

(** A probe as its executor leaves it: the promise unsettled and the
    request made and listened to, or the promise rejected. *)
Definition executed (options : NettimeOptions) (began opened : hrtime)
    (p : Probe) : Prop :=
  attached options began opened p /\
  match settled p with
  | None => listening p
  | Some (Rejected _) => True
  | Some (Resolved _) => False
  end.

Definition answered `{Node} (options : NettimeOptions) (x : Exchange)
    (p : Probe) : Prop :=
  matchesVersion options (transport p) /\
  answers options x (response p) /\
  forall r, settled p = Some (Resolved r) ->
            exists o, answers options x o /\ fromResponse o r.

(** The exchange [x] cut down to the events [evs]. *)
Definition upTo (x : Exchange) (evs : list (hrtime * Event)) : Exchange :=
  {| x_start := x_start x; x_opened := x_opened x; x_events := evs |}.

(** The message of the last response of HTTP/1 among the events, and the
    headers of the last response of HTTP/2. *)
Definition lastResponse (evs : list (hrtime * Event))
  : option IncomingMessage :=
  last (omap (fun ev : hrtime * Event =>
                match ev.2 with EvResponse m => Some m | _ => None end) evs).

Definition lastH2Response (evs : list (hrtime * Event)) : option Headers :=
  last (omap (fun ev : hrtime * Event =>
                match ev.2 with EvH2Response h => Some h | _ => None end) evs).

(** The variable [response] after a ['response'] event of HTTP/2 with
    the given headers. *)
Definition ofHeaders `{Node} (headers : Headers) : Response :=
  {| rsp_headers := headers;
     rsp_httpVersion := Some "2.0";
     rsp_statusCode := getHeader ":status" headers;
     rsp_statusMessage :=
       STATUS_CODES !! toString (getHeader ":status" headers) |}.

(** The event [ev] at time [now], coming after the events [before] of
    the exchange, settles the promise. *)
Definition settlesAt `{Node} (options : NettimeOptions) (x : Exchange)
    (before : list (hrtime * Event)) (now : hrtime) (ev : Event) : Prop :=
  settled (probe options (upTo x before)) = None /\
  is_Some (settled (probe options (upTo x (before ++ [(now, ev)])))).

(** The last call of the probe was made by the executor and threw [e]. *)
Definition thrown `{Node} (p : Probe) (e : JsError) : Prop :=
  exists made c,
    byExecutor c /\ effects p = made ++ [c] /\ throws made c = Some e.

(** A phase that, once recorded, keeps its Timestamp whatever events
    follow. *)
Definition keptOnceRecorded `{Node} (options : NettimeOptions)
    (phase : string) : Prop :=
  forall (start opened : hrtime) (before after : list (hrtime * Event))
         (t : hrtime),
    timings (probe options {| x_start := start; x_opened := opened;
                              x_events := before |}) !! phase = Some t ->
    timings (probe options {| x_start := start; x_opened := opened;
                              x_events := before ++ after |}) !! phase = Some t.

(** [firstByte] is set as soon as the timing of the first byte is. *)
Definition flagged (p : Probe) : Prop :=
  firstByte p = false -> timings p !! "firstByte" = None.

Definition kept (t : hrtime) (p : Probe) : Prop :=
  firstByte p = true /\ timings p !! "firstByte" = Some t.

(** The options object as the [k]-th call of a run receives it. *)
Definition optionsAt (options : NettimeOptions) (k : nat) : NettimeOptions :=
  match k with
  | O => options
  | S _ => setAppendToOutput true options
  end.

(** The delays of a run, in order. *)
Definition waits (trail : list Action) : list Z :=
  omap (fun a => match a with Wait ms => Some ms | Request _ _ => None end)
       trail.

(** The options objects handed to the probes of a run, in order. *)
Definition requested (trail : list Action) : list NettimeOptions :=
  omap (fun a => match a with Request o _ => Some o | Wait _ => None end)
       trail.


(** ** Strings *)

(** [s.substr(0, n)] *)
Fixpoint substrTo (n : nat) (s : string) : string :=
  match n, s with
  | S n, String a rest => String a (substrTo n rest)
  | _, _ => EmptyString
  end.

(** [s.substr(n)] *)
Fixpoint substrFrom (n : nat) (s : string) : string :=
  match n, s with
  | S n, String _ rest => substrFrom n rest
  | _, _ => s
  end.

(** [s.indexOf(c)] for a character [c]; [None] stands for -1. *)
Fixpoint indexOf (c : Ascii.ascii) (s : string) : option nat :=
  match s with
  | EmptyString => None
  | String a rest => if decide (a = c) then Some O else S <$> indexOf c rest
  end.

Definition colonChar : Ascii.ascii := Ascii.ascii_of_nat 58.

Definition CR : string := String (Ascii.ascii_of_nat 13) EmptyString.
Definition LF : string := String (Ascii.ascii_of_nat 10) EmptyString.

(** ** The request line of HTTP/1.0: [enforceHTTP10] *)

(** [firstLine.replace(/HTTP\/1.1\r\n$/, 'HTTP/1.0\r\n')], the first
    line that the patched [_storeHeader] passes on.  The expression can
    match the last ten characters only; its [.] stands for any character
    but the two line terminators. *)
Definition enforcedFirstLine (firstLine : string) : string :=
  let n := String.length firstLine in
  let front := substrTo (n - 10) firstLine in
  let tail := substrFrom (n - 10) firstLine in
  let dot := substrTo 1 (substrFrom 6 tail) in
  if bool_decide (substrTo 6 tail = "HTTP/1") &&
     bool_decide (dot <> CR) && bool_decide (dot <> LF) &&
     bool_decide (substrFrom 7 tail = "1" +:+ CR +:+ LF)
  then front +:+ "HTTP/1.0" +:+ CR +:+ LF
  else firstLine.

(** ** The command line: [bin/nettime] *)

(** The options that [commander] has parsed; a flag that was not given
    is [false], a number that did not parse is [None]. *)
Record Commander := {
  cmd_http10 : bool;
  cmd_http2 : bool;
  cmd_connectTimeout : option Z;
  cmd_data : option string;
  cmd_header : list string;
  cmd_include : bool;
  cmd_head : bool;
  cmd_insecure : bool;
  cmd_output : option string;
  cmd_user : option string;
  cmd_request : option string;
  cmd_requestCount : option Z;
  cmd_requestDelay : option Z;
  cmd_averageTimings : bool
}.

Section CommandLine.
(** [String.prototype.trim] and [String.prototype.toLowerCase]. *)
Variable trim toLowerCase : string -> string.

(** The function given to [commander.header.reduce]. *)
Definition addHeader (result : Headers) (header : string) : Headers :=
  match indexOf colonChar header with
  | Some (S n) =>
      let colon := S n in
      let name := toLowerCase (trim (substrTo colon header)) in
      let value := trim (substrFrom (S colon) header) in
      setHeader name (Str value) result
  | _ => result
  end.

Definition parseHeaders (header : list string) : Headers :=
  foldl addHeader [] header.

(** The credentials; [question] is the password typed at the prompt. *)
Definition parseCredentials (user : option string) (question : string)
  : option NettimeRequestCredentials :=
  if truthyStr user then
    let credentials := default "" user in
    match indexOf colonChar credentials with
    | Some (S n) =>
        let colon := S n in
        Some {| username := substrTo colon credentials;
                password := substrFrom (S colon) credentials |}
    | _ => Some {| username := credentials; password := question |}
    end
  else None.

(** The object handed to [nettime]. *)
Definition cliOptions (c : Commander) (url question : string) : NettimeOptions :=
  {| opt_url := url;
     opt_credentials := parseCredentials (cmd_user c) question;
     opt_method :=
       Some (if truthyStr (cmd_request c) then default "" (cmd_request c)
             else if cmd_head c then "HEAD"
             else if truthyStr (cmd_data c) then "POST" else "GET");
     opt_headers := Some (parseHeaders (cmd_header c));
     opt_timeout := cmd_connectTimeout c;
     opt_rejectUnauthorized := Some (negb (cmd_insecure c));
     opt_requestCount := cmd_requestCount c;
     opt_requestDelay := cmd_requestDelay c;
     opt_outputFile := cmd_output c;
     opt_returnResponse := false;
     opt_includeHeaders := cmd_include c;
     opt_appendToOutput := false;
     opt_failOnOutputFileError := Some false;
     opt_httpVersion :=
       Some (if cmd_http2 c then "2.0"
             else if cmd_http10 c then "1.0" else "1.1");
     opt_data := cmd_data c |}.

End CommandLine.

(** ** Further vocabulary *)

(** An effect that writes the output file. *)
Definition isWrite (e : Effect) : Prop :=
  match e with
  | WriteFile _ _ _ => True
  | _ => False
  end.

(** The options ask for the body to be kept in a buffer. *)
Definition wantsData (options : NettimeOptions) : bool :=
  truthyStr (opt_outputFile options) || opt_returnResponse options.

(** What holds of the variables of a probe at any moment. *)
Definition sound (options : NettimeOptions) (p : Probe) : Prop :=
  socketClosed p = false /\
  match data p with
  | Some _ => wantsData options = true
  | None => wantsData options = false
  end /\
  (onSocket p = true ->
   is_Some (transport p) /\ is_Some (timings p !! "socketOpen")) /\
  (closing p = true \/ transport p = Some Http2 -> onSocket p = true) /\
  ((0 < pendingWrites p)%nat ->
   is_Some (transport p) /\
   truthyStr (opt_outputFile options) = true /\
   Exists isWrite (effects p) /\
   is_Some (timings p !! "socketOpen") /\
   is_Some (timings p !! "socketClose")) /\
  (forall r, settled p = Some (Resolved r) ->
     (truthyStr (opt_outputFile options) = true -> Exists isWrite (effects p)) /\
     is_Some (timings p !! "socketOpen") /\
     is_Some (timings p !! "socketClose") /\
     (opt_includeHeaders options = false -> res_headers r = None) /\
     (opt_returnResponse options = false -> res_response r = None) /\
     (opt_returnResponse options = true -> is_Some (res_response r))).

(** The exchange [x] followed by one more event. *)
Definition extend (x : Exchange) (now : hrtime) (ev : Event) : Exchange :=
  {| x_start := x_start x; x_opened := x_opened x;
     x_events := x_events x ++ [(now, ev)] |}.

(** Why a probe can be rejected: the URL does not parse, HTTP/2 is asked
    for another scheme than [https:], a call of the executor throws, the
    transport reports an error, the configured timeout fires over
    HTTP/1, or writing the output file fails and the options do not
    tolerate it. *)
Definition rejectionCause `{Node} (options : NettimeOptions) (x : Exchange)
    (e : JsError) : Prop :=
  (newURL (opt_url options) = None /\ e = invalidURL (opt_url options)) \/
  (opt_httpVersion options = Some "2.0" /\ e = insecureScheme /\
   exists u, newURL (opt_url options) = Some u /\ url_protocol u <> "https:") \/
  thrown (makeSingleRequest options (x_start x) (x_opened x)) e \/
  (exists now, (now, EvError e) ∈ x_events x) \/
  (truthyNum (opt_timeout options) = true /\ e = timedOut /\
   opt_httpVersion options <> Some "2.0" /\
   exists now, (now, EvTimeout) ∈ x_events x) \/
  (opt_failOnOutputFileError options <> Some false /\
   truthyStr (opt_outputFile options) = true /\
   exists now, (now, EvWritten (Some e)) ∈ x_events x).

(** The phases an event can record. *)
Definition phasesOf (ev : Event) : list string :=
  match ev with
  | EvSocket => ["socketOpen"]
  | EvLookup => ["dnsLookup"]
  | EvConnect => ["tcpConnection"]
  | EvSecureConnect => ["tlsHandshake"]
  | EvClose | EvClientClosed => ["socketClose"]
  | EvReadable _ => ["firstByte"]
  | EvEnd => ["contentTransfer"]
  | _ => []
  end.

(** ** Further options and exchanges to run the model on *)

Module Cases.

(** Options with the flags of the result, the policy for a failed write
    and the timeout set. *)
Definition withFlags (includeHeaders returnResponse : bool)
    (failOnOutputFileError : option bool) (timeout : option Z)
    (o : NettimeOptions) : NettimeOptions :=
  {| opt_url := opt_url o; opt_credentials := opt_credentials o;
     opt_method := opt_method o; opt_headers := opt_headers o;
     opt_timeout := timeout;
     opt_rejectUnauthorized := opt_rejectUnauthorized o;
     opt_requestCount := opt_requestCount o;
     opt_requestDelay := opt_requestDelay o;
     opt_outputFile := opt_outputFile o;
     opt_returnResponse := returnResponse;
     opt_includeHeaders := includeHeaders;
     opt_appendToOutput := opt_appendToOutput o;
     opt_failOnOutputFileError := failOnOutputFileError;
     opt_httpVersion := opt_httpVersion o; opt_data := opt_data o |}.

Definition plain : NettimeOptions :=
  Sample.request "http://example.com/" None.

Definition secure2 : NettimeOptions :=
  Sample.request "https://example.com/" (Some "2.0").

(** The body is returned, the headers are not. *)
Definition bodyOnly : NettimeOptions := withFlags false true None None plain.

(** The response goes to a file, headers included, over HTTP/2. *)
Definition saved2 : NettimeOptions :=
  Sample.withOutputFile "out.txt" (withFlags true false None None secure2).

(** The response goes to a file; a failed write is fatal, or tolerated. *)
Definition savedStrict : NettimeOptions :=
  Sample.withOutputFile "out.txt" plain.

Definition savedLenient : NettimeOptions :=
  Sample.withOutputFile "out.txt" (withFlags false false (Some false) None plain).

(** A request with a timeout of two seconds, and one over HTTP/2. *)
Definition timed : NettimeOptions := withFlags false false None (Some 2000) plain.

Definition timed2 : NettimeOptions :=
  withFlags false false None (Some 2000) secure2.

(** An HTTP/1 exchange up to the close of the socket. *)
Definition closed1 : Exchange :=
  {| x_start := (100, 0); x_opened := (100, 0);
     x_events :=
       [((100, 1000000), EvSocket);
        ((100, 30000000), EvConnect);
        ((100, 900000000), EvResponse (Sample.ok "1.1"));
        ((100, 900500000), EvReadable (Some "hello"));
        ((101, 100), EvEnd);
        ((101, 2000), EvClose)] |}.

(** An HTTP/1 exchange in which the server has not answered yet. *)
Definition waiting1 : Exchange :=
  {| x_start := (100, 0); x_opened := (100, 0);
     x_events :=
       [((100, 1000000), EvSocket);
        ((100, 30000000), EvConnect)] |}.

(** An HTTP/2 exchange up to the close of the socket. *)
Definition closed2 : Exchange :=
  {| x_start := (100, 0); x_opened := (100, 1000000);
     x_events :=
       [((100, 30000000), EvConnect);
        ((100, 400000000), EvSecureConnect);
        ((100, 900000000), EvH2Response [(":status", Num 200)]);
        ((100, 900500000), EvReadable (Some "hello"));
        ((101, 100), EvEnd);
        ((101, 2000), EvClose)] |}.


(** An HTTP/2 exchange in which the server has not answered yet. *)
Definition waiting2 : Exchange :=
  {| x_start := (100, 0); x_opened := (100, 1000000);
     x_events :=
       [((100, 30000000), EvConnect);
        ((100, 400000000), EvSecureConnect)] |}.

Definition diskFull : JsError :=
  {| message := "ENOSPC: no space left on device, open 'out.txt'";
     code := Some "ENOSPC" |}.

End Cases.

(** The chunks that the ['readable'] events of a list carry, in order. *)
Fixpoint chunks (evs : list (hrtime * Event)) : string :=
  match evs with
  | [] => ""
  | (_, EvReadable (Some c)) :: rest => c +:+ chunks rest
  | _ :: rest => chunks rest
  end.




Module Requests.

(** A URL with a query string, as [new URL] splits it. *)
Definition search : URLRecord :=
  {| url_protocol := "https:"; url_username := ""; url_password := "";
     url_host := "example.com"; url_hostname := "example.com";
     url_port := ""; url_pathname := "/find"; url_search := "?q=rocq" |}.

(** A platform whose [URL] knows that one address. *)
Definition node : Node :=
  {| newURL := fun s =>
       if decide (s = "https://example.com/find?q=rocq") then Some search
       else Sample.parse s;
     STATUS_CODES := Sample.statusCodes; base64 := Sample.toBase64;
     EOL := String (Ascii.ascii_of_nat 10) EmptyString;
     throws := fun _ _ => None |}.

(** A form sent with credentials and a header of the caller. *)
Definition posting : NettimeOptions :=
  {| opt_url := "https://example.com/find?q=rocq";
     opt_credentials := Some {| username := "user"; password := "pass" |};
     opt_method := None;
     opt_headers := Some [("accept", Str "text/html");
                          ("content-length", Str "1")];
     opt_timeout := None; opt_rejectUnauthorized := None;
     opt_requestCount := None; opt_requestDelay := None;
     opt_outputFile := None; opt_returnResponse := false;
     opt_includeHeaders := false; opt_appendToOutput := false;
     opt_failOnOutputFileError := None; opt_httpVersion := Some "2.0";
     opt_data := Some "a=1&b=2" |}.

End Requests.

Module Refusing.

(** [new URL('ftp://example.com/')]. *)
Definition ftp : URLRecord :=
  {| url_protocol := "ftp:"; url_username := ""; url_password := "";
     url_host := "example.com"; url_hostname := "example.com";
     url_port := ""; url_pathname := "/"; url_search := "" |}.

(** The error of [https.request] for parameters whose protocol is not
    [https:]. *)
Definition invalidProtocol (protocol : string) : JsError :=
  {| message := "Protocol " +:+ dquote +:+ protocol +:+ dquote +:+
                " not supported. Expected " +:+ dquote +:+ "https:" +:+ dquote;
     code := Some "ERR_INVALID_PROTOCOL" |}.

(** The error of [setTimeout] for a negative number of milliseconds. *)
Definition outOfRange : JsError :=
  {| message := "The value of " +:+ dquote +:+ "msecs" +:+ dquote +:+
                " is out of range.";
     code := Some "ERR_OUT_OF_RANGE" |}.

(** A platform whose [URL] knows that address, whose [https.request]
    checks the protocol and whose [setTimeout] checks the range. *)
Definition node : Node :=
  {| newURL := fun s =>
       if decide (s = "ftp://example.com/") then Some ftp
       else Sample.parse s;
     STATUS_CODES := Sample.statusCodes; base64 := Sample.toBase64;
     EOL := String (Ascii.ascii_of_nat 10) EmptyString;
     throws := fun _ e =>
       match e with
       | Http1Request true q =>
           if decide (prm_protocol q = "https:") then None
           else Some (invalidProtocol (prm_protocol q))
       | SetTimeout ms => if decide (ms < 0) then Some outOfRange else None
       | _ => None
       end |}.

Definition fetch : NettimeOptions := Sample.request "ftp://example.com/" None.

(** A request whose timeout is negative. *)
Definition hasty : NettimeOptions :=
  Cases.withFlags false false None (Some (-1)) Cases.plain.

End Refusing.

Module Failing.

(** A connection that is refused. *)
Definition refused : JsError :=
  {| message := "connect ECONNREFUSED 127.0.0.1:80";
     code := Some "ECONNREFUSED" |}.

Definition refusal : Exchange :=
  {| x_start := (100, 0); x_opened := (100, 0);
     x_events :=
       [((100, 1000000), EvSocket);
        ((100, 2000000), EvError refused);
        ((100, 3000000), EvClose)] |}.

(** The server answers the first request and refuses from the second on. *)
Definition secondRefused : nat -> Exchange :=
  fun i => match i with O => Sample.http1 "1.1" | S _ => refusal end.

Definition thrice : NettimeOptions :=
  Sample.withRun (Some 3) (Some 50) (Sample.request "http://example.com/" None).

End Failing.

Module Shell.

(** Trimming and lower case for the characters of the examples. *)
Fixpoint trimLeft (s : string) : string :=
  match s with
  | String a rest => if Ascii.is_space a then trimLeft rest else s
  | EmptyString => EmptyString
  end.

Definition trim (s : string) : string :=
  String.rev (trimLeft (String.rev (trimLeft s))).

Definition lower (a : Ascii.ascii) : Ascii.ascii :=
  let n := Ascii.nat_of_ascii a in
  if bool_decide (65 <= n <= 90)%nat then Ascii.ascii_of_nat (n + 32) else a.

Fixpoint toLowerCase (s : string) : string :=
  match s with
  | String a rest => String (lower a) (toLowerCase rest)
  | EmptyString => EmptyString
  end.

(** [nettime -u user:pass -H 'Accept: text/html' -H broken -o out.txt URL] *)
Definition command : Commander :=
  {| cmd_http10 := false; cmd_http2 := false; cmd_connectTimeout := None;
     cmd_data := None;
     cmd_header := ["Accept: text/html"; "broken"];
     cmd_include := false; cmd_head := false; cmd_insecure := false;
     cmd_output := Some "out.txt"; cmd_user := Some "user:pass";
     cmd_request := None; cmd_requestCount := Some 1;
     cmd_requestDelay := Some 100; cmd_averageTimings := false |}.

End Shell.

(** ** Theorems *)

Lemma round_spec (n d : Z) :
  0 < d -> round (inject_Z n / inject_Z d)%Q = (2 * n + d) / (2 * d).
Proof.
  intros Hd. unfold round.
  assert (E : (inject_Z n / inject_Z d + (1 # 2)
               == (2 * n + d) # Z.to_pos (2 * d))%Q).
  { unfold Qeq, Qplus, Qdiv, Qmult, Qinv, inject_Z. simpl.
    destruct d as [|p|p]; try lia. simpl. lia. }
  rewrite E. unfold Qfloor. simpl. rewrite Z2Pos.id by lia. done.
Qed.

Example getMilliseconds_500 :
  getMilliseconds (getDuration (0, 500000000) (1, 0)) = 500.
Proof. reflexivity. Qed.


(** *** Durations and milliseconds *)

Lemma getDuration_exact (a b : hrtime) :
  toNanoseconds (getDuration a b) = toNanoseconds b - toNanoseconds a.
Proof.
  unfold getDuration, toNanoseconds, seconds, nanos, NS_PER_SEC.
  case_decide; simpl; lia.
Qed.

Lemma getDuration_valid (a b : hrtime) :
  valid a -> valid b -> hr_le a b -> valid (getDuration a b).
Proof.
  unfold valid, hr_le, getDuration, seconds, nanos, NS_PER_SEC.
  intros [Ha1 Ha2] [Hb1 Hb2] Hle. case_decide; simpl; lia.
Qed.

Lemma getMilliseconds_half_up (d : hrtime) :
  exists r : Z,
    getMilliseconds d = seconds d * 1000 + r /\
    2 * 1000000 * r <= 2 * nanos d + 1000000 < 2 * 1000000 * (r + 1).
Proof.
  exists ((2 * nanos d + 1000000) / (2 * 1000000)). split.
  - unfold getMilliseconds. by rewrite round_spec.
  - pose proof (Z.div_mod (2 * nanos d + 1000000) (2 * 1000000) ltac:(lia)).
    pose proof (Z.mod_pos_bound (2 * nanos d + 1000000) (2 * 1000000)
                  ltac:(lia)).
    lia.
Qed.

(** C8: for Timestamps [a <= b] the duration with nanosecond borrow is
    non-negative (its nanoseconds stay below one second, and it is exactly
    [b - a]); the milliseconds of any duration are its seconds times 1000
    plus its nanoseconds over 1e6 rounded to the nearest integer, halves
    up; and the duration from (0,500000000) to (1,0) is 500 ms. *)
Theorem duration_milliseconds :
  (forall a b : hrtime,
      valid a -> valid b -> hr_le a b ->
      let d := getDuration a b in
      0 <= seconds d /\ 0 <= nanos d < NS_PER_SEC /\
      toNanoseconds d = toNanoseconds b - toNanoseconds a) /\
  (forall d : hrtime,
      exists r : Z,
        getMilliseconds d = seconds d * 1000 + r /\
        2 * 1000000 * r <= 2 * nanos d + 1000000 < 2 * 1000000 * (r + 1)) /\
  getMilliseconds (getDuration (0, 500000000) (1, 0)) = 500.
Proof.
  split; [|split].
  - intros a b Ha Hb Hle d. destruct (getDuration_valid a b Ha Hb Hle) as [? ?].
    repeat split; try tauto. apply getDuration_exact.
  - apply getMilliseconds_half_up.
  - reflexivity.
Qed.

Lemma duration_milliseconds_witness :
  let d := getDuration (3, 999999999) (5, 1500000) in
  0 <= seconds d /\ 0 <= nanos d < NS_PER_SEC /\
  toNanoseconds d = toNanoseconds (5, 1500000) - toNanoseconds (3, 999999999).
Proof.
  apply (proj1 duration_milliseconds (3, 999999999) (5, 1500000)).
  - unfold valid, seconds, nanos, NS_PER_SEC; simpl; lia.
  - unfold valid, seconds, nanos, NS_PER_SEC; simpl; lia.
  - unfold hr_le, seconds, nanos; simpl; lia.
Defined.

(** *** The average over runs *)

Lemma present_cons (p : string) (run : gmap string hrtime) runs :
  present p (run :: runs) =
  match run !! p with
  | Some d => d :: present p runs
  | None => present p runs
  end.
Proof. unfold present. simpl. by destruct (run !! p). Qed.

Lemma lookup_addRun (p : string) (acc : gmap string (Z * Z)) run :
  addRun acc run !! p =
  union_with (fun a b => Some (a.1 + b.1, a.2 + b.2))
             (acc !! p) ((fun d => (toNanoseconds d, 1)) <$> run !! p).
Proof. unfold addRun. by rewrite lookup_union_with, lookup_fmap. Qed.

Lemma lookup_foldl_addRun (p : string) runs :
  forall acc : gmap string (Z * Z),
    foldl addRun acc runs !! p =
    union_with (fun a b => Some (a.1 + b.1, a.2 + b.2))
               (acc !! p) (tally (present p runs)).
Proof.
  induction runs as [|run runs IH]; intros acc; cbn [foldl].
  - unfold present. simpl. by destruct (acc !! p).
  - rewrite IH, lookup_addRun, present_cons.
    destruct (run !! p) as [d|]; simpl.
    + destruct (acc !! p) as [[s c]|], (present p runs) as [|d' ds];
        simpl; f_equal; unfold sumNanoseconds; simpl; f_equal; lia.
    + by destruct (acc !! p).
Qed.

Lemma lookup_computeAverageDurations (p : string) runs :
  computeAverageDurations runs !! p =
  match present p runs with
  | [] => None
  | ds => Some (mean ds)
  end.
Proof.
  unfold computeAverageDurations.
  rewrite lookup_fmap, lookup_foldl_addRun, lookup_empty.
  by destruct (present p runs).
Qed.

Lemma fromNanoseconds_toNanoseconds (d : hrtime) :
  0 <= nanos d < NS_PER_SEC -> fromNanoseconds (toNanoseconds d) = d.
Proof.
  destruct d as [s n]. unfold fromNanoseconds, toNanoseconds, seconds, nanos.
  simpl. intros Hn. f_equal.
  - rewrite Z.div_add_l by (unfold NS_PER_SEC; lia).
    rewrite Z.div_small by done. lia.
  - rewrite Z.add_comm, Z.mod_add by (unfold NS_PER_SEC; lia).
    by apply Z.mod_small.
Qed.

Lemma present_replicate (p : string) (run : gmap string hrtime) (n : nat) :
  present p (replicate n run) =
  match run !! p with
  | Some d => replicate n d
  | None => []
  end.
Proof.
  induction n as [|n IH]; cbn [replicate].
  - unfold present. simpl. by destruct (run !! p).
  - rewrite present_cons, IH. by destruct (run !! p).
Qed.

Lemma sumNanoseconds_replicate (d : hrtime) (n : nat) :
  sumNanoseconds (replicate n d) = Z.of_nat n * toNanoseconds d.
Proof.
  unfold sumNanoseconds. induction n as [|n IH]; [done|].
  change (foldr Z.add 0 (toNanoseconds <$> replicate (S n) d))
    with (toNanoseconds d + foldr Z.add 0 (toNanoseconds <$> replicate n d)).
  rewrite IH. lia.
Qed.

Lemma mean_replicate (d : hrtime) (n : nat) :
  (0 < n)%nat -> 0 <= nanos d < NS_PER_SEC -> mean (replicate n d) = d.
Proof.
  intros Hn Hd. unfold mean.
  rewrite sumNanoseconds_replicate, length_replicate.
  rewrite Z.mul_comm, Z.div_mul by lia.
  by apply fromNanoseconds_toNanoseconds.
Qed.

(** C6: for each phase, the average is the arithmetic mean (rounded down
    to a nanosecond) of the durations of exactly the runs that have the
    phase, and the phase is absent when no run has it; hence N >= 1 equal
    runs of Timestamp-shaped durations average to themselves, and a
    [dnsLookup] of 10 ms in one run of two averages to 10 ms. *)
Theorem average_over_present_runs :
  (forall (runs : list (gmap string hrtime)) (p : string),
      computeAverageDurations runs !! p =
      match present p runs with
      | [] => None
      | ds => Some (fromNanoseconds
                      (sumNanoseconds ds / Z.of_nat (length ds)))
      end) /\
  (forall (n : nat) (run : gmap string hrtime),
      (0 < n)%nat ->
      map_Forall (fun _ d => valid d) run ->
      computeAverageDurations (replicate n run) = run) /\
  computeAverageDurations [{["dnsLookup" := (0, 10000000)]}; ∅] !! "dnsLookup"
  = Some (0, 10000000).
Proof.
  split; [|split].
  - intros runs p. apply lookup_computeAverageDurations.
  - intros n run Hn Hrun. apply map_eq. intros p.
    rewrite lookup_computeAverageDurations, present_replicate.
    destruct (run !! p) as [d|] eqn:Hp.
    + destruct n as [|n]; [lia|]. change (d :: replicate n d) with (replicate (S n) d).
      destruct (replicate (S n) d) eqn:E; [done|]. rewrite <- E.
      f_equal. apply mean_replicate; [lia|]. apply (Hrun p d Hp).
    + done.
  - by rewrite lookup_computeAverageDurations.
Qed.

Lemma average_over_present_runs_witness :
  computeAverageDurations
    (replicate 3 (<["firstByte" := (1, 888887072)]> {["socketOpen" := (0, 13260126)]}))
  = <["firstByte" := (1, 888887072)]> {["socketOpen" := (0, 13260126)]}.
Proof.
  apply (proj1 (proj2 average_over_present_runs) 3%nat).
  - lia.
  - intros k d Hk. apply lookup_insert_Some in Hk as [[_ <-]|[_ Hk]].
    + unfold valid, seconds, nanos, NS_PER_SEC; simpl; lia.
    + apply lookup_singleton_Some in Hk as [_ <-].
      unfold valid, seconds, nanos, NS_PER_SEC; simpl; lia.
Defined.

(** *** Invariants of a probe *)

Lemma foldl_invariant {A B} (f : A -> B -> A) (I : A -> Prop) (l : list B) :
  forall init : A,
    I init ->
    (forall e a, e ∈ l -> I a -> I (f a e)) ->
    I (foldl f init l).
Proof.
  induction l as [|e l IH]; intros init Hinit Hstep; simpl; [done|].
  apply IH.
  - apply Hstep; [left|done].
  - intros e' a He'. apply Hstep. by right.
Qed.

Lemma outcome_resolved (p : Probe) (r : Result) :
  outcome p = Some (Resolved r) ->
  exists r0, settled p = Some (Resolved r0) /\ r = setTimings (timings p) r0.
Proof.
  unfold outcome. destruct (settled p) as [[r0|e]|]; intros E; simplify_eq.
  by exists r0.
Qed.

Section ProbeFacts.
Context `{Node}.
Variable options : NettimeOptions.

Lemma probe_invariant (I : Probe -> Prop) (x : Exchange) :
  I (makeSingleRequest options (x_start x) (x_opened x)) ->
  (forall now ev p, (now, ev) ∈ x_events x -> I p -> I (handle options now ev p)) ->
  I (probe options x).
Proof.
  intros Hinit Hstep. unfold probe. apply foldl_invariant; [done|].
  intros [now ev] p Hin Hp. by apply Hstep.
Qed.

Lemma settles_refl p : settles p p.
Proof. unfold settles. auto. Qed.

Lemma returnResult_settles p : settles p (returnResult options p).
Proof.
  unfold settles, returnResult, resolve.
  destruct (settled p) eqn:E; simpl; [auto|].
  repeat split. right. right. eexists. split; [done|]. by unfold fromResponse.
Qed.

Lemma reject_settles e p : settles p (reject e p).
Proof.
  unfold settles, reject. destruct (settled p) eqn:E; simpl; eauto 6.
Qed.

Lemma written_settles error p : settles p (written options error p).
Proof.
  unfold written. destruct (pendingWrites p); [apply settles_refl|].
  destruct error as [e|].
  - case_decide.
    + pose proof (returnResult_settles
        (emit (SetExitCode 2) (emit (ConsoleError (message e)) (withPendingWrites n p)))) as Hs.
      exact Hs.
    + pose proof (reject_settles e (withPendingWrites n p)) as Hs. exact Hs.
  - pose proof (returnResult_settles (withPendingWrites n p)) as Hs. exact Hs.
Qed.

Lemma checkSocketClosed_settles now p :
  settles p (checkSocketClosed options now p).
Proof.
  unfold checkSocketClosed. destruct (socketClosed p); [apply settles_refl|].
  case_match.
  - unfold settles, writeOutputFile. simpl.
    destruct (response p) eqn:E; [destruct (opt_includeHeaders options)|];
      simpl; rewrite ?E; auto.
  - pose proof (returnResult_settles
        (withTimings <["socketClose" := getTiming now p]> p)) as Hs.
    exact Hs.
Qed.

Lemma answered_settles x p p' :
  answered options x p -> settles p p' -> answered options x p'.
Proof.
  intros (Ht & Hr & Hs) (Et & Er & Es). unfold answered.
  rewrite Et, Er. repeat split; try done.
  intros r Hres. destruct Es as [Es|[[e Es]|(r' & Es & Hfrom)]].
  - apply Hs. congruence.
  - congruence.
  - exists (response p). split; [done|]. congruence.
Qed.

Lemma answered_same x p p' :
  transport p' = transport p -> response p' = response p ->
  settled p' = settled p -> answered options x p -> answered options x p'.
Proof.
  intros Et Er Es Hp. apply (answered_settles x p); [done|].
  unfold settles. auto.
Qed.

Lemma attached_emit began opened e p :
  byExecutor e -> attached options began opened p ->
  attached options began opened (emit e p).
Proof.
  intros He (?&?&?&?&?&?&?&?&?&?&?&Hf). unfold attached; simpl.
  do 11 (split; [done|]). apply Forall_app. split; [done|]. by constructor.
Qed.

Lemma executed_reject began opened e p :
  attached options began opened p -> settled p = None ->
  executed options began opened (reject e p).
Proof. intros Hp Hs. unfold reject. rewrite Hs. by split. Qed.

Lemma executed_call began opened e rest p :
  byExecutor e -> attached options began opened p -> settled p = None ->
  (attached options began opened (emit e p) ->
   executed options began opened (rest (emit e p))) ->
  executed options began opened (call e rest p).
Proof.
  intros He Hp Hs Hrest. unfold call.
  pose proof (attached_emit began opened e p He Hp) as Hq.
  destruct (throws (effects p) e) as [error|]; [|by apply Hrest].
  by apply executed_reject.
Qed.

Lemma sendRequest_executed began opened p :
  attached options began opened p -> settled p = None -> listening p ->
  executed options began opened (sendRequest options p).
Proof.
  intros Hp Hs Hl. unfold sendRequest.
  assert (Hfinish : forall q,
    attached options began opened q -> settled q = None -> listening q ->
    executed options began opened (call RequestEnd (fun p => p) q)).
  { intros q Hq Hsq Hlq. apply executed_call; [done..|].
    intros Hq'. split; [done|]. simpl. by rewrite Hsq. }
  assert (Hwrite : forall q,
    attached options began opened q -> settled q = None -> listening q ->
    executed options began opened
      ((if truthyStr (opt_data options)
        then call (RequestWrite (default "" (opt_data options)))
                  (call RequestEnd (fun p => p))
        else call RequestEnd (fun p => p)) q)).
  { intros q Hq Hsq Hlq. destruct (truthyStr (opt_data options)); [|auto].
    apply executed_call; [done..|]. intros Hq'. by apply Hfinish. }
  destruct (truthyNum (opt_timeout options)); [|auto].
  apply executed_call; [done..|]. intros Hq'. by apply Hwrite.
Qed.

Lemma makeSingleRequest_executed began opened :
  executed options began opened (makeSingleRequest options began opened).
Proof.
  assert (Hinit : forall t,
    matchesVersion options t ->
    (t = Some Http2 -> False) ->
    attached options began opened (withTransport t (initial options began))).
  { intros t Ht Hn. unfold attached; simpl. do 7 (split; [done|]).
    split; [done|]. split; [split; [done|]; intros E; by destruct (Hn E)|].
    split; [done|]. by split. }
  assert (Hbase : attached options began opened (initial options began)).
  { apply (Hinit None); done. }
  unfold makeSingleRequest.
  destruct (getParameters options) as [e|parameters];
    [by apply executed_reject|].
  destruct (decide (opt_httpVersion options = Some "2.0")) as [E|E].
  - case_decide; [by apply executed_reject|].
    apply executed_call; [done..|]. intros Hreq.
    unfold makeHTTP2Request. apply executed_call; [done..|]. intros Ha.
    set (p1 := emit _ (emit _ (initial options began))) in *.
    assert (Hb : attached options began opened
                   (listenToSocket opened (withTransport (Some Http2) p1))).
    { destruct Ha as (?&?&?&?&?&?&?&?&?&?&?&?).
      unfold attached, listenToSocket, getTiming; simpl.
      do 7 (split; [done|]). split; [done|]. split; [done|].
      split; [done|]. split; [done|]. by repeat constructor. }
    apply executed_call; [done..|]. intros Hc.
    apply sendRequest_executed; [|done|].
    + destruct Hc as (?&?&?&?&?&?&?&?&?&?&?&?). unfold attached; simpl in *.
      do 11 (split; [done|]). done.
    + split; [by eexists|done].
  - unfold makeHTTP1Request. apply executed_call; [done..|]. intros Ha.
    set (p1 := emit _ (initial options began)) in *.
    assert (Hb : attached options began opened
                   (withTransport (Some Http1) p1)).
    { destruct Ha as (?&?&?&?&?&?&?&?&?&?&?&?). unfold attached; simpl in *.
      do 7 (split; [done|]). split; [done|]. split; [done|].
      split; [done|]. by split. }
    apply sendRequest_executed.
    + case_decide; [by apply attached_emit|done].
    + by case_decide.
    + case_decide; (split; [by eexists|done]).
Qed.

Lemma makeSingleRequest_answered x start opened :
  answered options x (makeSingleRequest options start opened).
Proof.
  unfold makeSingleRequest. destruct getParameters as [e|parameters].
  - unfold answered, answers, matchesVersion, reject; simpl.
    split; [done|]. split; [auto|]. intros r Hr. discriminate.
  - destruct (decide (opt_httpVersion options = Some "2.0")) as [E|E].
    + case_decide.
      * unfold answered, answers, matchesVersion, reject; simpl.
        split; [done|]. split; [auto|]. intros r Hr. discriminate.
      * unfold answered, answers, sendRequest, makeHTTP2Request, call, reject.
        repeat case_match; simpl; (split; [done|]); (split; [auto|]);
          intros r Hr; discriminate.
    + unfold answered, answers, sendRequest, makeHTTP1Request, call, reject.
      repeat case_match; simpl; (split; [done|]); (split; [auto|]);
        intros r Hr; discriminate.
Qed.

Lemma handle_answered x now ev p :
  (now, ev) ∈ x_events x -> answered options x p ->
  answered options x (handle options now ev p).
Proof.
  intros Hin Hp. unfold handle.
  destruct (transport p) as [tr|] eqn:Etr; [|done].
  destruct ev as [| | | | |m|headers|chunk| | |e| | |error].
  - destruct tr; [|done]. by apply (answered_same x p).
  - destruct (onSocket p); [|done]. by apply (answered_same x p).
  - destruct (onSocket p); [|done]. by apply (answered_same x p).
  - destruct (onSocket p); [|done]. by apply (answered_same x p).
  - destruct (onSocket p); [|done].
    apply (answered_settles x p); [done|]. apply checkSocketClosed_settles.
  - destruct tr; [|done]. destruct Hp as (Ht & Hr & Hs).
    unfold answered; simpl. rewrite Etr in *. repeat split; try done.
    right. left. split; [done|]. eauto.
  - destruct tr; [done|]. destruct (onResponse p); [|done].
    destruct Hp as (Ht & Hr & Hs).
    unfold answered; simpl. rewrite Etr in *. repeat split; try done.
    right. right. split; [done|]. exists now, headers. split; [done|].
    simpl in Ht. by rewrite Ht.
  - destruct (onResponse p); [|done].
    unfold checkFirstByte. destruct (firstByte p); simpl;
      repeat case_match; by apply (answered_same x p).
  - destruct (onResponse p); [|done]. destruct tr; by apply (answered_same x p).
  - destruct (closing p); [|done].
    apply (answered_settles x p); [done|]. apply checkSocketClosed_settles.
  - apply (answered_settles x p); [done|]. apply reject_settles.
  - case_match; [|done]. destruct tr.
    + apply (answered_settles x (emit RequestAbort p)).
      * by apply (answered_same x p).
      * apply reject_settles.
    + case_match; [|done]. by apply (answered_same x p).
  - by case_match.
  - apply (answered_settles x p); [done|]. apply written_settles.
Qed.

Lemma handle_listening now ev p :
  is_Some (transport p) /\ onResponse p = true ->
  is_Some (transport (handle options now ev p)) /\
  onResponse (handle options now ev p) = true.
Proof.
  intros [[tr Htr] Hon]. unfold handle. rewrite Htr, Hon.
  assert (Hcl : forall q, transport (checkSocketClosed options now q) = transport q /\
                          onResponse (checkSocketClosed options now q) = onResponse q).
  { intros q. unfold checkSocketClosed, writeOutputFile, returnResult, resolve.
    destruct (socketClosed q); [done|].
    case_match; simpl;
      [destruct (response q); [destruct (opt_includeHeaders options)|]; done|].
    by destruct (settled q). }
  destruct ev as [| | | | |m|headers|chunk| | |e| | |error]; simpl.
  - destruct tr; simpl; rewrite ?Htr, ?Hon; eauto.
  - destruct (onSocket p); simpl; rewrite ?Htr, ?Hon; eauto.
  - destruct (onSocket p); simpl; rewrite ?Htr, ?Hon; eauto.
  - destruct (onSocket p); simpl; rewrite ?Htr, ?Hon; eauto.
  - destruct (onSocket p); [|rewrite Htr, Hon; eauto].
    destruct (Hcl p) as [-> ->]. rewrite Htr, Hon. eauto.
  - destruct tr; simpl; rewrite ?Htr, ?Hon; eauto.
  - destruct tr; simpl; rewrite ?Htr, ?Hon; eauto.
  - unfold checkFirstByte.
    destruct (firstByte p); simpl; destruct (data p); destruct chunk; simpl;
      rewrite ?Htr, ?Hon; eauto.
  - destruct tr; simpl; rewrite ?Htr, ?Hon; eauto.
  - destruct (closing p); [|rewrite Htr, Hon; eauto].
    destruct (Hcl p) as [-> ->]. rewrite Htr, Hon. eauto.
  - unfold reject. destruct (settled p); simpl; rewrite ?Htr, ?Hon; eauto.
  - destruct (truthyNum (opt_timeout options)); [|rewrite Htr, Hon; eauto].
    destruct tr; simpl; rewrite ?Htr, ?Hon; eauto.
    unfold reject. simpl. destruct (settled p); simpl; rewrite ?Htr, ?Hon; eauto.
  - destruct (truthyNum (opt_timeout options)); simpl; rewrite ?Htr, ?Hon; eauto.
  - unfold written, returnResult, resolve, reject.
    destruct (pendingWrites p); [rewrite Htr, Hon; eauto|].
    destruct error; [case_decide|]; simpl; destruct (settled p); simpl;
      rewrite ?Htr, ?Hon; eauto.
Qed.

Lemma handle_transport now ev p :
  transport (handle options now ev p) = transport p.
Proof.
  unfold handle. destruct (transport p) as [tr|] eqn:Etr; [|done].
  destruct ev as [| | | | |m|headers|chunk| | |e| | |error].
  - by destruct tr.
  - by destruct (onSocket p).
  - by destruct (onSocket p).
  - by destruct (onSocket p).
  - destruct (onSocket p); [|done]. rewrite <- Etr.
    apply checkSocketClosed_settles.
  - by destruct tr.
  - destruct tr; [done|]. by destruct (onResponse p).
  - destruct (onResponse p); [|done]. unfold checkFirstByte.
    destruct (firstByte p); simpl; repeat case_match; done.
  - destruct (onResponse p); [|done]. by destruct tr.
  - destruct (closing p); [|done]. rewrite <- Etr.
    apply checkSocketClosed_settles.
  - rewrite <- Etr. apply reject_settles.
  - case_match; [|done]. destruct tr.
    + rewrite <- Etr. apply (reject_settles timedOut (emit RequestAbort p)).
    + by destruct (onResponse p).
  - by case_match.
  - rewrite <- Etr. apply written_settles.
Qed.

Lemma probe_transport x :
  transport (probe options x)
  = transport (makeSingleRequest options (x_start x) (x_opened x)).
Proof.
  apply (probe_invariant
           (fun p => transport p
                     = transport (makeSingleRequest options (x_start x)
                                    (x_opened x)))); [done|].
  intros now ev p _ Hp. by rewrite handle_transport.
Qed.

Lemma probe_listening x :
  settled (makeSingleRequest options (x_start x) (x_opened x)) = None ->
  listening (probe options x).
Proof.
  intros Hs.
  destruct (makeSingleRequest_executed (x_start x) (x_opened x)) as [_ Hl].
  rewrite Hs in Hl. destruct Hl as [Htr Hon]. unfold listening.
  rewrite probe_transport. split; [done|]. intros E.
  apply (probe_invariant
           (fun p => is_Some (transport p) /\ onResponse p = true)).
  - split; [done|]. by apply Hon.
  - intros now ev p _. apply handle_listening.
Qed.

Lemma handle_settled now ev p o :
  settled p = Some o -> settled (handle options now ev p) = Some o.
Proof.
  intros Hs. unfold handle. destruct (transport p); [|done].
  assert (Hret : forall q, settled q = Some o ->
                           settled (returnResult options q) = Some o).
  { intros q Hq. unfold returnResult, resolve. by rewrite Hq. }
  assert (Hrej : forall e q, settled q = Some o -> settled (reject e q) = Some o).
  { intros e q Hq. unfold reject. by rewrite Hq. }
  assert (Hwr : forall q, settled q = Some o ->
                          settled (writeOutputFile options q) = Some o).
  { intros q Hq. unfold writeOutputFile. simpl.
    destruct (response q); [destruct (opt_includeHeaders options)|]; done. }
  assert (Hcl : forall q, settled q = Some o ->
                          settled (checkSocketClosed options now q) = Some o).
  { intros q Hq. unfold checkSocketClosed.
    destruct (socketClosed q); [done|]. case_match; [by apply Hwr|by apply Hret]. }
  destruct ev; try done.
  - by destruct t.
  - by destruct (onSocket p).
  - by destruct (onSocket p).
  - by destruct (onSocket p).
  - destruct (onSocket p); [by apply Hcl|done].
  - by destruct t.
  - destruct t; [done|]. by destruct (onResponse p).
  - destruct (onResponse p); [|done]. unfold checkFirstByte.
    destruct (firstByte p); simpl; repeat case_match; done.
  - destruct (onResponse p); [|done]. by destruct t.
  - destruct (closing p); [by apply Hcl|done].
  - by apply Hrej.
  - destruct (truthyNum (opt_timeout options)); [|done].
    destruct t; [by apply Hrej|]. by destruct (onResponse p).
  - by destruct (truthyNum (opt_timeout options)).
  - unfold written. destruct (pendingWrites p); [done|].
    destruct error; [case_decide|]; [by apply Hret|by apply Hrej|by apply Hret].
Qed.

Lemma foldl_handle_settled evs p o :
  settled p = Some o ->
  settled (foldl (fun p ev => handle options ev.1 ev.2 p) p evs) = Some o.
Proof.
  intros Hs. apply (foldl_invariant _ (fun q => settled q = Some o)); [done|].
  intros [now ev] q _. apply handle_settled.
Qed.

(** The event that settles the promise. *)
Lemma settling_event evs :
  forall p o,
    settled p = None ->
    settled (foldl (fun p ev => handle options ev.1 ev.2 p) p evs) = Some o ->
    exists before now ev after,
      evs = before ++ (now, ev) :: after /\
      settled (foldl (fun p ev => handle options ev.1 ev.2 p) p before)
      = None /\
      settled (foldl (fun p ev => handle options ev.1 ev.2 p) p
                     (before ++ [(now, ev)])) = Some o.
Proof.
  induction evs as [|[now ev] evs IH]; intros p o Hnone Hs; simpl in *.
  - congruence.
  - destruct (settled (handle options now ev p)) as [o'|] eqn:E.
    + rewrite (foldl_handle_settled evs _ o' E) in Hs.
      exists [], now, ev, evs. simpl. split; [done|]. split; [done|].
      congruence.
    + destruct (IH _ o E Hs) as (before & now' & ev' & after & -> & Hb & Ha).
      exists ((now, ev) :: before), now', ev', after. by simpl.
Qed.

Lemma handle_settles now ev p :
  settled (handle options now ev p) = settled p \/
  settles p (handle options now ev p).
Proof.
  unfold handle. destruct (transport p) as [tr|] eqn:Etr; [|by left].
  destruct ev as [| | | | |m|headers|chunk| | |e| | |error].
  - left. by destruct tr.
  - left. by destruct (onSocket p).
  - left. by destruct (onSocket p).
  - left. by destruct (onSocket p).
  - destruct (onSocket p); [|by left]. right.
    apply checkSocketClosed_settles.
  - left. by destruct tr.
  - left. destruct tr; [done|]. by destruct (onResponse p).
  - left. destruct (onResponse p); [|done]. unfold checkFirstByte.
    destruct (firstByte p); simpl; repeat case_match; done.
  - left. destruct (onResponse p); [|done]. by destruct tr.
  - destruct (closing p); [|by left]. right.
    apply checkSocketClosed_settles.
  - right. apply reject_settles.
  - case_match; [|by left]. destruct tr.
    + right. apply (reject_settles timedOut (emit RequestAbort p)).
    + left. by destruct (onResponse p).
  - left. by case_match.
  - right. apply written_settles.
Qed.

Lemma handle_resolved now ev p r :
  settled p = None -> settled (handle options now ev p) = Some (Resolved r) ->
  fromResponse (response p) r.
Proof.
  intros Hnone Hr.
  destruct (handle_settles now ev p)
    as [E|(_ & _ & [E|[[e E]|(r' & E & Hfrom)]])]; try congruence.
Qed.

(** The variable [response] holds the last response received. *)
Lemma handle_response now ev p :
  listening p ->
  response (handle options now ev p)
  = match ev, transport p with
    | EvResponse m, Some Http1 => Some (ofMessage m)
    | EvH2Response headers, Some Http2 =>
        Some {| rsp_headers := headers;
                rsp_httpVersion := opt_httpVersion options;
                rsp_statusCode := getHeader ":status" headers;
                rsp_statusMessage :=
                  STATUS_CODES !! toString (getHeader ":status" headers) |}
    | _, _ => response p
    end.
Proof.
  intros [[tr Htr] Hon]. unfold handle. rewrite Htr.
  destruct ev as [| | | | |m|headers|chunk| | |e| | |error].
  - by destruct tr.
  - by destruct (onSocket p).
  - by destruct (onSocket p).
  - by destruct (onSocket p).
  - destruct (onSocket p); [|done].
    apply (proj1 (proj2 (checkSocketClosed_settles now p))).
  - by destruct tr.
  - destruct tr; [done|]. by rewrite Hon.
  - destruct (onResponse p); [|done]. unfold checkFirstByte.
    destruct (firstByte p); simpl; repeat case_match; done.
  - destruct (onResponse p); [|done]. by destruct tr.
  - destruct (closing p); [|done].
    apply (proj1 (proj2 (checkSocketClosed_settles now p))).
  - apply (proj1 (proj2 (reject_settles e p))).
  - case_match; [|done]. destruct tr.
    + apply (proj1 (proj2 (reject_settles timedOut (emit RequestAbort p)))).
    + by destruct (onResponse p).
  - by case_match.
  - apply (proj1 (proj2 (written_settles error p))).
Qed.

Lemma handle_keeps_listening now ev p :
  listening p -> listening (handle options now ev p).
Proof.
  intros [Htr Hon]. unfold listening. rewrite handle_transport.
  split; [done|]. intros E. apply handle_listening. split; [done|].
  by apply Hon.
Qed.

Lemma lastResponse_cons now ev evs :
  lastResponse ((now, ev) :: evs)
  = match lastResponse evs with
    | Some m => Some m
    | None => match ev with EvResponse m => Some m | _ => None end
    end.
Proof.
  unfold lastResponse. change (omap ?f ((now, ev) :: evs)) with
    (match f (now, ev) with Some y => y :: omap f evs | None => omap f evs end).
  destruct ev; cbn [snd]; try (by destruct (last (omap _ evs))).
  by rewrite last_cons.
Qed.

Lemma lastH2Response_cons now ev evs :
  lastH2Response ((now, ev) :: evs)
  = match lastH2Response evs with
    | Some h => Some h
    | None => match ev with EvH2Response h => Some h | _ => None end
    end.
Proof.
  unfold lastH2Response. change (omap ?f ((now, ev) :: evs)) with
    (match f (now, ev) with Some y => y :: omap f evs | None => omap f evs end).
  destruct ev; cbn [snd]; try (by destruct (last (omap _ evs))).
  by rewrite last_cons.
Qed.

Lemma foldl_response evs :
  forall p,
    listening p ->
    response (foldl (fun p ev => handle options ev.1 ev.2 p) p evs)
    = match transport p with
      | Some Http1 =>
          match lastResponse evs with
          | Some m => Some (ofMessage m)
          | None => response p
          end
      | Some Http2 =>
          match lastH2Response evs with
          | Some headers =>
              Some {| rsp_headers := headers;
                      rsp_httpVersion := opt_httpVersion options;
                      rsp_statusCode := getHeader ":status" headers;
                      rsp_statusMessage :=
                        STATUS_CODES
                          !! toString (getHeader ":status" headers) |}
          | None => response p
          end
      | None => response p
      end.
Proof.
  induction evs as [|[now ev] evs IH]; intros p Hl.
  - simpl. by destruct (transport p) as [[|]|].
  - cbn [foldl fst snd].
    rewrite IH by by apply handle_keeps_listening.
    rewrite handle_transport, handle_response by done.
    rewrite lastResponse_cons, lastH2Response_cons.
    destruct (transport p) as [[|]|]; [| |by destruct ev].
    + destruct (lastResponse evs); [done|]. by destruct ev.
    + destruct (lastH2Response evs); [done|]. by destruct ev.
Qed.

Lemma lastResponse_None evs :
  lastResponse evs = None <-> forall t m, (t, EvResponse m) ∉ evs.
Proof.
  induction evs as [|[t ev] evs IH].
  - split; [|done]. intros _ t m Hin. by apply elem_of_nil in Hin.
  - rewrite lastResponse_cons. split.
    + intros E t' m Hin. destruct (lastResponse evs) eqn:El; [done|].
      apply elem_of_cons in Hin as [Heq|Hin]; [by simplify_eq|].
      by apply (proj1 IH eq_refl t' m).
    + intros Hno. rewrite (proj2 IH).
      * destruct ev; try done. exfalso. apply (Hno t m). by left.
      * intros t' m Hin. apply (Hno t' m). by right.
Qed.

Lemma lastH2Response_None evs :
  lastH2Response evs = None <-> forall t h, (t, EvH2Response h) ∉ evs.
Proof.
  induction evs as [|[t ev] evs IH].
  - split; [|done]. intros _ t h Hin. by apply elem_of_nil in Hin.
  - rewrite lastH2Response_cons. split.
    + intros E t' h Hin. destruct (lastH2Response evs) eqn:El; [done|].
      apply elem_of_cons in Hin as [Heq|Hin]; [by simplify_eq|].
      by apply (proj1 IH eq_refl t' h).
    + intros Hno. rewrite (proj2 IH).
      * destruct ev; try done. exfalso. apply (Hno t headers). by left.
      * intros t' h Hin. apply (Hno t' h). by right.
Qed.

(** The fields that a result takes from the response, by the events that
    came before the one that resolved the probe. *)
Lemma resolved_fields x r before now ev after :
  outcome (probe options x) = Some (Resolved r) ->
  x_events x = before ++ (now, ev) :: after ->
  settlesAt options x before now ev ->
  (opt_httpVersion options <> Some "2.0" ->
   fromResponse (ofMessage <$> lastResponse before) r) /\
  (opt_httpVersion options = Some "2.0" ->
   fromResponse (ofHeaders <$> lastH2Response before) r).
Proof.
  intros Hout Hx [Hb [o Ha]]. unfold probe, upTo in Hb, Ha. simpl in Hb, Ha.
  rewrite foldl_app in Ha. simpl in Ha.
  set (p0 := makeSingleRequest options (x_start x) (x_opened x)) in *.
  set (pb := foldl (fun p ev => handle options ev.1 ev.2 p) p0 before) in *.
  apply outcome_resolved in Hout as (r0 & Hset & ->).
  assert (Ho : o = Resolved r0).
  { unfold probe in Hset. rewrite Hx in Hset.
    change (before ++ (now, ev) :: after)
      with (before ++ [(now, ev)] ++ after) in Hset.
    rewrite app_assoc, foldl_app, foldl_app in Hset. simpl in Hset.
    fold p0 in Hset. fold pb in Hset.
    rewrite (foldl_handle_settled after _ o Ha) in Hset. congruence. }
  subst o. pose proof (handle_resolved now ev pb r0 Hb Ha) as Hfrom.
  assert (H0 : settled p0 = None).
  { destruct (settled p0) as [o|] eqn:E; [|done].
    unfold pb in Hb. by rewrite (foldl_handle_settled before p0 o E) in Hb. }
  destruct (makeSingleRequest_executed (x_start x) (x_opened x))
    as [(_ & _ & Hr & _ & _ & _ & _ & Hv & _) Hl].
  fold p0 in Hr, Hv, Hl. rewrite H0 in Hl.
  assert (Hpb : response pb
                = match transport p0 with
                  | Some Http1 => ofMessage <$> lastResponse before
                  | Some Http2 =>
                      (fun headers =>
                         {| rsp_headers := headers;
                            rsp_httpVersion := opt_httpVersion options;
                            rsp_statusCode := getHeader ":status" headers;
                            rsp_statusMessage :=
                              STATUS_CODES
                                !! toString (getHeader ":status" headers) |})
                      <$> lastH2Response before
                  | None => None
                  end).
  { unfold pb. rewrite foldl_response by done. rewrite Hr.
    destruct (transport p0) as [[|]|]; [| |done].
    - by destruct (lastResponse before).
    - by destruct (lastH2Response before). }
  rewrite Hpb in Hfrom. destruct Hl as [[tr Htr] _]. rewrite Htr in *.
  unfold fromResponse in *. simpl.
  split; intros E; destruct tr; simpl in Hv; try done.
  unfold ofHeaders. by rewrite E in Hfrom.
Qed.

Lemma probe_answered x : answered options x (probe options x).
Proof.
  apply probe_invariant.
  - apply makeSingleRequest_answered.
  - intros now ev p. apply handle_answered.
Qed.

End ProbeFacts.

Lemma resolved_from_answer `{Node} options x r :
  outcome (probe options x) = Some (Resolved r) ->
  exists o, answers options x o /\ fromResponse o r.
Proof.
  intros Hout. apply outcome_resolved in Hout as (r0 & Hset & ->).
  destruct (probe_answered options x) as (_ & _ & Hs).
  destruct (Hs r0 Hset) as (o & Ho & Hfrom). by exists o.
Qed.

Lemma resolved_at `{Node} options x r :
  outcome (probe options x) = Some (Resolved r) ->
  exists before now ev after,
    x_events x = before ++ (now, ev) :: after /\
    settlesAt options x before now ev.
Proof.
  intros Hout. apply outcome_resolved in Hout as (r0 & Hset & _).
  unfold probe in Hset.
  destruct (settled (makeSingleRequest options (x_start x) (x_opened x)))
    as [o|] eqn:E0.
  { destruct (makeSingleRequest_executed options (x_start x) (x_opened x))
      as [_ Hrej]. rewrite E0 in Hrej.
    rewrite (foldl_handle_settled options (x_events x) _ o E0) in Hset.
    destruct o; [done|congruence]. }
  destruct (settling_event options (x_events x) _ _ E0 Hset)
    as (before & now & ev & after & Hx & Hb & Ha).
  exists before, now, ev, after. split; [done|]. split; [done|].
  unfold probe, upTo. simpl. rewrite Ha. by eexists.
Qed.

(** C3: a probe that resolves was settled by one event of its exchange,
    and the httpVersion of its result is fixed by the responses received
    before that event.  Over HTTP/1.0 and HTTP/1.1 it is the version of
    the last response message of the server, whatever version was asked
    for; over HTTP/2 it is 2.0 once the server has responded.  It is
    absent exactly when no response came before that event. *)
Theorem result_httpVersion `{Node} (options : NettimeOptions) (x : Exchange)
    (r : Result) :
  outcome (probe options x) = Some (Resolved r) ->
  (exists before now ev after,
      x_events x = before ++ (now, ev) :: after /\
      settlesAt options x before now ev) /\
  (forall before now ev after,
      x_events x = before ++ (now, ev) :: after ->
      settlesAt options x before now ev ->
      (opt_httpVersion options <> Some "2.0" ->
       res_httpVersion r = msg_httpVersion <$> lastResponse before /\
       (res_httpVersion r = None <->
        forall t m, (t, EvResponse m) ∉ before)) /\
      (opt_httpVersion options = Some "2.0" ->
       res_httpVersion r = (fun _ => "2.0") <$> lastH2Response before /\
       (res_httpVersion r = None <->
        forall t headers, (t, EvH2Response headers) ∉ before))).
Proof.
  intros Hout. split; [by apply (resolved_at options x r)|].
  intros before now ev after Hx Hat.
  destruct (resolved_fields options x r before now ev after Hout Hx Hat)
    as [H1 H2].
  split; intros Hv.
  - destruct (H1 Hv) as (E & _ & _). rewrite E. split.
    + by destruct (lastResponse before).
    + rewrite <- lastResponse_None. by destruct (lastResponse before).
  - destruct (H2 Hv) as (E & _ & _). rewrite E. split.
    + by destruct (lastH2Response before).
    + rewrite <- lastH2Response_None. by destruct (lastH2Response before).
Qed.

(** C10: when an HTTP/2 probe resolves, either no response had been seen
    (no statusCode and no statusMessage), or the statusCode is the
    [:status] header of a response in this exchange and the statusMessage
    is the entry of [http.STATUS_CODES] for it; so a code that the table
    lacks gives no statusMessage.  The response that counts is the last
    one received before the event that settled the promise, and without
    one the result has neither field. *)
Theorem http2_statusMessage `{Node} (options : NettimeOptions) (x : Exchange)
    (r : Result) :
  opt_httpVersion options = Some "2.0" ->
  outcome (probe options x) = Some (Resolved r) ->
  ((res_statusCode r = None /\ res_statusMessage r = None) \/
   (exists now headers,
       (now, EvH2Response headers) ∈ x_events x /\
       res_statusCode r = getHeader ":status" headers /\
       res_statusMessage r = STATUS_CODES !! toString (res_statusCode r))) /\
  (STATUS_CODES !! toString (res_statusCode r) = None ->
   res_statusMessage r = None) /\
  (forall before now ev after,
      x_events x = before ++ (now, ev) :: after ->
      settlesAt options x before now ev ->
      res_statusCode r = lastH2Response before ≫= getHeader ":status" /\
      res_statusMessage r
      = lastH2Response before ≫=
          (fun headers =>
             STATUS_CODES !! toString (getHeader ":status" headers))).
Proof.
  intros Hv Hout. split; [|split].
  - destruct (resolved_from_answer options x r Hout)
      as (o & [->|[(Hv' & _)|(_ & now & hs & Hin & ->)]] & Hv'' & Hc & Hm).
    + by left.
    + done.
    + simpl in *. right. exists now, hs. rewrite Hc. done.
  - destruct (resolved_from_answer options x r Hout)
      as (o & [->|[(Hv' & _)|(_ & now & hs & Hin & ->)]] & Hv'' & Hc & Hm).
    + done.
    + done.
    + simpl in *. rewrite Hc, Hm. done.
  - intros before now ev after Hx Hat.
    destruct (resolved_fields options x r before now ev after Hout Hx Hat)
      as [_ H2].
    destruct (H2 Hv) as (_ & Ec & Em). rewrite Ec, Em.
    by destruct (lastH2Response before).
Qed.

Lemma handle_unmade `{Node} options now ev p :
  transport p = None -> handle options now ev p = p.
Proof. intros E. unfold handle. by rewrite E. Qed.

Lemma probe_unmade `{Node} options x :
  transport (makeSingleRequest options (x_start x) (x_opened x)) = None ->
  probe options x = makeSingleRequest options (x_start x) (x_opened x).
Proof.
  intros E. unfold probe.
  generalize dependent (makeSingleRequest options (x_start x) (x_opened x)).
  induction (x_events x) as [|[now ev] evs IH]; intros p E; simpl; [done|].
  rewrite handle_unmade by done. by apply IH.
Qed.

Lemma makeSingleRequest_insecure `{Node} options u start opened :
  opt_httpVersion options = Some "2.0" ->
  newURL (opt_url options) = Some u ->
  url_protocol u <> "https:" ->
  makeSingleRequest options start opened =
  reject insecureScheme (initial options start).
Proof.
  intros Hv Hu Hs. unfold makeSingleRequest, getParameters. rewrite Hu.
  simpl. rewrite decide_True by done. by rewrite decide_True.
Qed.

(** C4: with protocol version 2.0 and a URL whose scheme is not [https:],
    every probe is rejected with the error of code ERR_INSECURE_SCHEME
    having made no request, no connection and no other effect and having
    recorded no timing, and the entry operation is rejected with that
    error after this one attempt. *)
Theorem http2_insecure_scheme `{Node} (options : NettimeOptions)
    (u : URLRecord) (net : nat -> Exchange) :
  opt_httpVersion options = Some "2.0" ->
  newURL (opt_url options) = Some u ->
  url_protocol u <> "https:" ->
  (forall x : Exchange,
      outcome (probe options x) = Some (Rejected insecureScheme) /\
      effects (probe options x) = [] /\
      transport (probe options x) = None /\
      timings (probe options x) = ∅) /\
  returned (nettime net options) = Some (Rejected insecureScheme) /\
  log (nettime net options) = [Request options []] /\
  code insecureScheme = Some "ERR_INSECURE_SCHEME".
Proof.
  intros Hv Hu Hs.
  assert (Hp : forall x, probe options x =
                         reject insecureScheme (initial options (x_start x))).
  { intros x. rewrite probe_unmade;
      rewrite (makeSingleRequest_insecure options u) by done; done. }
  split; [|split; [|split]].
  - intros x. by rewrite Hp.
  - unfold nettime, greaterThanOne.
    destruct (opt_requestCount options) as [c|]; simpl; [|by rewrite Hp].
    case_bool_decide; simpl; [|by rewrite Hp].
    destruct (Z.to_nat c) as [|n] eqn:En; [lia|]. simpl. by rewrite Hp.
  - unfold nettime, greaterThanOne.
    destruct (opt_requestCount options) as [c|]; simpl; [|by rewrite Hp].
    case_bool_decide; simpl; [|by rewrite Hp].
    destruct (Z.to_nat c) as [|n] eqn:En; [lia|]. simpl. by rewrite Hp.
  - done.
Qed.

(** *** Which phases are recorded once *)

Ltac handlers :=
  unfold handle, checkSocketClosed, writeOutputFile, prependOutputHeader,
    written, returnResult, checkFirstByte, listenToSocket, listenToResponse,
    onHTTP2Response, timeoutHandler, resolve, reject in *.

Section FirstByte.
Context `{Node}.
Variable options : NettimeOptions.

Lemma makeSingleRequest_flagged start opened :
  flagged (makeSingleRequest options start opened).
Proof.
  unfold flagged, makeSingleRequest, sendRequest, makeHTTP2Request,
    makeHTTP1Request, call, listenToSocket, listenToResponse, reject.
  repeat case_match; simpl; intros _; by rewrite ?lookup_insert_ne.
Qed.

Lemma handle_flagged now ev p : flagged p -> flagged (handle options now ev p).
Proof.
  unfold flagged. intros Hp. handlers.
  repeat case_match; simpl in *; try done;
    intros E; rewrite ?lookup_insert_ne by done; auto; congruence.
Qed.

Lemma handle_kept t now ev p : kept t p -> kept t (handle options now ev p).
Proof.
  unfold kept. intros [Hf Ht]. handlers.
  repeat case_match; simpl in *; try done;
    rewrite ?lookup_insert_ne by done; auto; congruence.
Qed.

Lemma firstByte_kept : keptOnceRecorded options "firstByte".
Proof.
  intros start opened before after t Ht. unfold probe in *. simpl in *.
  rewrite foldl_app.
  set (p := foldl _ _ before) in *.
  assert (Hp : kept t p).
  { split; [|done].
    assert (Hfl : flagged p).
    { apply foldl_invariant; [apply makeSingleRequest_flagged|].
      intros e a _. apply handle_flagged. }
    destruct (firstByte p) eqn:E; [done|]. rewrite Hfl in Ht; done. }
  apply (foldl_invariant _ (kept t)); [done|].
  intros e a _. apply handle_kept.
Qed.

End FirstByte.

(** C1 (as amended): [firstByte] is the phase recorded once, its first
    Timestamp being kept whatever follows; [socketOpen], [dnsLookup],
    [tcpConnection], [tlsHandshake] and [contentTransfer] are assigned
    each time their signal is handled, so that the latest occurrence is
    the one recorded. *)
Theorem firstByte_once_others_latest `{Node} (options : NettimeOptions) :
  keptOnceRecorded options "firstByte" /\
  (forall (p : Probe) (now : hrtime),
      transport p = Some Http1 ->
      timings (handle options now EvSocket p) !! "socketOpen"
      = Some (getDuration (start p) now)) /\
  (forall (p : Probe) (now : hrtime) (tr : Transport),
      transport p = Some tr -> onSocket p = true ->
      timings (handle options now EvLookup p) !! "dnsLookup"
      = Some (getDuration (start p) now) /\
      timings (handle options now EvConnect p) !! "tcpConnection"
      = Some (getDuration (start p) now) /\
      timings (handle options now EvSecureConnect p) !! "tlsHandshake"
      = Some (getDuration (start p) now)) /\
  (forall (p : Probe) (now : hrtime) (tr : Transport),
      transport p = Some tr -> onResponse p = true ->
      timings (handle options now EvEnd p) !! "contentTransfer"
      = Some (getDuration (start p) now)).
Proof.
  split; [apply firstByte_kept|]. split; [|split].
  - intros p now Htr. unfold handle, listenToSocket. rewrite Htr. simpl.
    apply lookup_insert_eq.
  - intros p now tr Htr Hs. unfold handle. rewrite Htr, Hs. simpl.
    by rewrite !lookup_insert_eq.
  - intros p now tr Htr Hr. unfold handle. rewrite Htr, Hr.
    destruct tr; simpl; apply lookup_insert_eq.
Qed.

Lemma firstByte_once_others_latest_witness :
  let o := Sample.request "http://example.com/" None in
  let p := probe (H:=Sample.node) o Sample.lookupOnce in
  timings p !! "dnsLookup" = Some (0, 2000000) /\
  timings (handle (H:=Sample.node) o (100, 7000000) EvLookup p) !! "dnsLookup"
  = Some (0, 7000000).
Proof.
  intros o p. split; [reflexivity|].
  apply (proj1 (proj2 (proj2 (firstByte_once_others_latest (H:=Sample.node) o)))
           p (100, 7000000) Http1); reflexivity.
Defined.

(** C1, as stated, fails for [dnsLookup]: the resolver reports twice and
    the second Timestamp replaces the first. *)
Lemma second_lookup_replaces_first :
  let o := Sample.request "http://example.com/" None in
  timings (probe (H:=Sample.node) o Sample.lookupOnce) !! "dnsLookup"
  = Some (0, 2000000) /\
  timings (probe (H:=Sample.node) o Sample.lookupTwice) !! "dnsLookup"
  = Some (0, 7000000) /\
  ~ keptOnceRecorded (H:=Sample.node) o "dnsLookup".
Proof.
  intros o. split; [reflexivity|]. split; [reflexivity|].
  intros Hkept.
  specialize (Hkept (100, 0) (100, 0) Sample.firstLookup
                    Sample.afterFirstLookup (0, 2000000) eq_refl).
  vm_compute in Hkept. discriminate.
Qed.

(** *** Runs of several requests *)

Section Runs.
Context `{Node}.
Variable net : nat -> Exchange.

Lemma optionsAt_set options k :
  optionsAt (setAppendToOutput true options) k = setAppendToOutput true options.
Proof. by destruct k. Qed.

Lemma optionsAt_succ options k :
  optionsAt (setAppendToOutput true options) k = optionsAt options (S k).
Proof. by rewrite optionsAt_set. Qed.

(** A loop that returns has made all its requests, each followed by the
    delay if there is one. *)
Lemma requests_resolved d n :
  forall i options results trail v,
    returned (requests net d n i options results trail) = Some (Resolved v) ->
    exists new,
      v = Many (results ++ new) /\
      length new = n /\
      (forall k r, new !! k = Some r ->
         outcome (probe (optionsAt options k) (net (i + k)%nat))
         = Some (Resolved r)) /\
      waits (log (requests net d n i options results trail))
      = waits trail ++
        (if truthyNum d then replicate n (default 0 d) else []) /\
      requested (log (requests net d n i options results trail))
      = requested trail ++ ((fun k => optionsAt options k) <$> seq 0 n) /\
      finalOptions (requests net d n i options results trail)
      = optionsAt options n.
Proof.
  induction n as [|n IH]; intros i options results trail v; simpl.
  - intros [= <-]. exists []. rewrite !app_nil_r.
    assert (E : (if truthyNum d then [] else []) = @nil Z)
      by (by destruct (truthyNum d)).
    rewrite E, app_nil_r. repeat split; done.
  - destruct (outcome (probe options (net i))) as [[r|e]|] eqn:Hout;
      simpl; try done.
    intros Hret. apply IH in Hret
      as (new & -> & Hlen & Hnew & Hwaits & Hreq & Hfin).
    exists (r :: new). rewrite <- app_assoc. split; [done|].
    split; [simpl; lia|]. split; [|split; [|split]].
    + intros [|k] r' Hk.
      * injection Hk as <-. unfold optionsAt. by rewrite Nat.add_0_r.
      * specialize (Hnew k r' Hk). rewrite optionsAt_set in Hnew.
        by replace (i + S k)%nat with (S i + k)%nat by lia.
    + rewrite Hwaits. unfold waits. destruct (truthyNum d); simpl.
      * rewrite !omap_app. simpl. rewrite <- !app_assoc. done.
      * rewrite !omap_app. simpl. by rewrite !app_nil_r.
    + rewrite Hreq. unfold requested.
      assert (E : (fun k => optionsAt (setAppendToOutput true options) k) <$> seq 0 n
                  = (fun k => optionsAt options k) <$> seq 1 n).
      { rewrite <- (fmap_S_seq 0 n), <- list_fmap_compose.
        apply list_fmap_ext. intros ? k _. simpl. by rewrite optionsAt_set. }
      rewrite E. destruct (truthyNum d); simpl;
        rewrite !omap_app; simpl; rewrite <- !app_assoc; simpl;
        by rewrite ?app_nil_r.
    + by rewrite Hfin, optionsAt_set.
Qed.

(** A loop all of whose probes resolve returns. *)
Lemma requests_returns d n :
  forall i options results trail,
    (forall k, (k < n)%nat ->
       exists r, outcome (probe (optionsAt options k) (net (i + k)%nat))
                 = Some (Resolved r)) ->
    exists rs,
      returned (requests net d n i options results trail)
      = Some (Resolved (Many rs)).
Proof.
  induction n as [|n IH]; intros i options results trail Hall; simpl.
  - by eexists.
  - destruct (Hall 0%nat ltac:(lia)) as [r Hr]. simpl in Hr.
    rewrite Nat.add_0_r in Hr. rewrite Hr. apply IH.
    intros k Hk. rewrite optionsAt_set.
    destruct (Hall (S k) ltac:(lia)) as [r' Hr']. exists r'.
    by replace (S i + k)%nat with (i + S k)%nat by lia.
Qed.

End Runs.

Section RunFacts.
Context `{Node}.
Variable net : nat -> Exchange.

Lemma nettime_many options c :
  opt_requestCount options = Some c -> 1 < c ->
  nettime net options
  = requests net (opt_requestDelay options) (Z.to_nat c) 0 options [] [].
Proof.
  intros Hc Hgt. unfold nettime, greaterThanOne. rewrite Hc. simpl.
  by rewrite bool_decide_true by lia.
Qed.

Lemma nettime_single options :
  (opt_requestCount options = None \/
   exists c, opt_requestCount options = Some c /\ c <= 1) ->
  nettime net options
  = {| returned :=
         match outcome (probe options (net 0%nat)) with
         | Some (Resolved r) => Some (Resolved (One r))
         | Some (Rejected e) => Some (Rejected e)
         | None => None
         end;
       finalOptions := options;
       log := [Request options (effects (probe options (net 0%nat)))] |}.
Proof.
  intros [Hc|(c & Hc & Hle)]; unfold nettime, greaterThanOne; rewrite Hc;
    [done|]. by rewrite bool_decide_false by lia.
Qed.



End RunFacts.

Section Appending.
Context `{Node}.
Variable options : NettimeOptions.
Hypothesis flagSet : opt_appendToOutput options = true.




End Appending.

(** C7: without a request count, or with a count of 1 or less, the
    promise is that of the single probe, its result not wrapped; with a
    count above 1, a run that returns gives the results of the calls in
    the order of the calls, as many as the count, and a run returns
    whenever each of its probes resolves. *)
Theorem one_result_or_results_in_order `{Node} (net : nat -> Exchange)
    (options : NettimeOptions) :
  ((opt_requestCount options = None \/
    exists c, opt_requestCount options = Some c /\ c <= 1) ->
   returned (nettime net options)
   = match outcome (probe options (net 0%nat)) with
     | Some (Resolved r) => Some (Resolved (One r))
     | Some (Rejected e) => Some (Rejected e)
     | None => None
     end) /\
  (forall c : Z,
      opt_requestCount options = Some c -> 1 < c ->
      (forall v : Returned,
          returned (nettime net options) = Some (Resolved v) ->
          exists rs : list Result,
            v = Many rs /\
            length rs = Z.to_nat c /\
            forall (k : nat) (r : Result),
              rs !! k = Some r ->
              outcome (probe (optionsAt options k) (net k)) = Some (Resolved r)) /\
      ((forall k : nat,
           (k < Z.to_nat c)%nat ->
           exists r, outcome (probe (optionsAt options k) (net k))
                     = Some (Resolved r)) ->
       exists rs : list Result,
         returned (nettime net options) = Some (Resolved (Many rs)))).
Proof.
  split.
  - intros Hc. by rewrite nettime_single.
  - intros c Hc Hgt. rewrite (nettime_many net options c) by done. split.
    + intros v Hv. apply requests_resolved in Hv
        as (new & -> & Hlen & Hnew & _). exists new. done.
    + intros Hall. by apply requests_returns.
Qed.

Lemma one_result_or_results_in_order_witness :
  (exists rs : list Result,
      returned (nettime (H:=Sample.node) Sample.steady (Sample.twice (Some 50)))
      = Some (Resolved (Many rs)) /\ length rs = 2%nat) /\
  (exists r : Result,
      returned (nettime (H:=Sample.node) Sample.steady
                  (Sample.request "http://example.com/" None))
      = Some (Resolved (One r))).
Proof.
  pose proof (one_result_or_results_in_order (H:=Sample.node) Sample.steady
                (Sample.twice (Some 50))) as [_ Hmany].
  pose proof (one_result_or_results_in_order (H:=Sample.node) Sample.steady
                (Sample.request "http://example.com/" None)) as [Hone _].
  split.
  - destruct (Hmany 2 eq_refl ltac:(lia)) as [Hin Hret].
    destruct Hret as [rs Hrs].
    { intros [|[|k]] Hk; [eexists; vm_compute; reflexivity ..|simpl in Hk; lia]. }
    exists rs. split; [done|].
    destruct (Hin (Many rs) Hrs) as (rs' & [= <-] & Hlen & _). exact Hlen.
  - eexists. rewrite Hone by (left; reflexivity). vm_compute. reflexivity.
Defined.

(** The delays of a run that returns: one after every request when a
    delay is set, none otherwise. *)
Lemma waits_of_run `{Node} (net : nat -> Exchange) (options : NettimeOptions)
    (c : Z) (v : Returned) :
  opt_requestCount options = Some c -> 1 < c ->
  returned (nettime net options) = Some (Resolved v) ->
  waits (log (nettime net options))
  = if truthyNum (opt_requestDelay options)
    then replicate (Z.to_nat c) (default 0 (opt_requestDelay options))
    else [].
Proof.
  intros Hc Hgt. rewrite (nettime_many net options c) by done.
  intros Hv. by apply requests_resolved in Hv as (new & _ & _ & _ & -> & _).
Qed.

(** C2, on the code: a run of two requests with a delay of 50 ms waits
    twice, the second time after the last request, and a run of two
    requests without a delay does not wait at all. *)
Theorem wait_after_last_request_and_no_default :
  (exists (e1 e2 : list Effect) (rs : list Result),
      log (nettime (H:=Sample.node) Sample.steady (Sample.twice (Some 50)))
      = [Request (Sample.twice (Some 50)) e1; Wait 50;
         Request (setAppendToOutput true (Sample.twice (Some 50))) e2; Wait 50] /\
      returned (nettime (H:=Sample.node) Sample.steady (Sample.twice (Some 50)))
      = Some (Resolved (Many rs)) /\ length rs = 2%nat) /\
  (exists rs : list Result,
      waits (log (nettime (H:=Sample.node) Sample.steady (Sample.twice None))) = [] /\
      returned (nettime (H:=Sample.node) Sample.steady (Sample.twice None))
      = Some (Resolved (Many rs)) /\ length rs = 2%nat).
Proof.
  split.
  - do 3 eexists. split; [|split]; vm_compute; reflexivity.
  - eexists. split; [|split]; vm_compute; reflexivity.
Qed.



(** The first probe of a run made with the options object of an earlier
    run appends to the file that the earlier run began by truncating. *)
Example following_run_appends :
  let first := nettime (H:=Sample.node) Sample.steady Sample.twiceSaved in
  let second := nettime (H:=Sample.node) Sample.steady
                  (Sample.withRun None None (finalOptions first)) in
  (exists o1 o2 e1 e2,
      log first = [Request o1 (e1 ++ [WriteFile "out.txt" "hello" "w"]); Wait 100;
                   Request o2 (e2 ++ [WriteFile "out.txt" "hello" "a"]); Wait 100]) /\
  (exists o e,
      log second = [Request o (e ++ [WriteFile "out.txt" "hello" "a"])]).
Proof.
  split.
  - eexists _, _, [_; _], [_; _]. vm_compute. reflexivity.
  - eexists _, [_; _]. vm_compute. reflexivity.
Qed.

Lemma result_httpVersion_witness :
  (exists r : Result,
      outcome (probe (H:=Sample.node)
                 (Sample.request "http://example.com/" (Some "1.0"))
                 (Sample.http1 "1.1")) = Some (Resolved r) /\
      res_httpVersion r = Some "1.1") /\
  (exists r : Result,
      outcome (probe (H:=Sample.node)
                 (Sample.request "https://example.com/" (Some "2.0"))
                 (Sample.http2 200)) = Some (Resolved r) /\
      res_httpVersion r = Some "2.0").
Proof.
  split.
  - destruct (outcome (probe (H:=Sample.node)
                         (Sample.request "http://example.com/" (Some "1.0"))
                         (Sample.http1 "1.1"))) as [[r|e]|] eqn:E;
      [|vm_compute in E; discriminate ..].
    exists r. split; [reflexivity|].
    destruct (result_httpVersion (H:=Sample.node)
                (Sample.request "http://example.com/" (Some "1.0"))
                (Sample.http1 "1.1") r E) as [_ Hall].
    destruct (Hall (take 7 (x_events (Sample.http1 "1.1")))
                   (101, 2000) EvClose
                   (drop 8 (x_events (Sample.http1 "1.1"))) eq_refl)
      as [Hv1 _].
    { split; [reflexivity|]. eexists. vm_compute. reflexivity. }
    destruct Hv1 as [Hversion _]; [discriminate|]. exact Hversion.
  - destruct (outcome (probe (H:=Sample.node)
                         (Sample.request "https://example.com/" (Some "2.0"))
                         (Sample.http2 200))) as [[r|e]|] eqn:E;
      [|vm_compute in E; discriminate ..].
    exists r. split; [reflexivity|].
    destruct (result_httpVersion (H:=Sample.node)
                (Sample.request "https://example.com/" (Some "2.0"))
                (Sample.http2 200) r E) as [_ Hall].
    destruct (Hall (take 6 (x_events (Sample.http2 200)))
                   (101, 2000) EvClose
                   (drop 7 (x_events (Sample.http2 200))) eq_refl)
      as [_ Hv2].
    { split; [reflexivity|]. eexists. vm_compute. reflexivity. }
    destruct Hv2 as [Hversion _]; [reflexivity|]. exact Hversion.
Defined.

(** The three transports: the version of the answer, not of the request,
    over HTTP/1; 2.0 over HTTP/2. *)
Example httpVersion_by_transport :
  (res_httpVersion <$>
     (outcome (probe (H:=Sample.node)
                 (Sample.request "http://example.com/" (Some "1.0"))
                 (Sample.http1 "1.1")) ≫=
      fun o => match o with Resolved r => Some r | Rejected _ => None end))
  = Some (Some "1.1") /\
  (res_httpVersion <$>
     (outcome (probe (H:=Sample.node)
                 (Sample.request "http://example.com/" (Some "1.1"))
                 (Sample.http1 "1.0")) ≫=
      fun o => match o with Resolved r => Some r | Rejected _ => None end))
  = Some (Some "1.0") /\
  (res_httpVersion <$>
     (outcome (probe (H:=Sample.node)
                 (Sample.request "https://example.com/" (Some "2.0"))
                 (Sample.http2 200)) ≫=
      fun o => match o with Resolved r => Some r | Rejected _ => None end))
  = Some (Some "2.0").
Proof. repeat split; vm_compute; reflexivity. Qed.

Lemma http2_statusMessage_witness :
  exists r : Result,
    outcome (probe (H:=Sample.node)
               (Sample.request "https://example.com/" (Some "2.0"))
               (Sample.http2 299)) = Some (Resolved r) /\
    res_statusCode r = Some (Num 299) /\
    res_statusMessage r = None.
Proof.
  destruct (outcome (probe (H:=Sample.node)
                       (Sample.request "https://example.com/" (Some "2.0"))
                       (Sample.http2 299))) as [[r|e]|] eqn:E;
    [|vm_compute in E; discriminate ..].
  exists r. split; [reflexivity|].
  destruct (http2_statusMessage (H:=Sample.node)
              (Sample.request "https://example.com/" (Some "2.0"))
              (Sample.http2 299) r eq_refl E) as (_ & Habsent & _).
  assert (Hc : res_statusCode r = Some (Num 299)).
  { vm_compute in E. injection E as <-. reflexivity. }
  split; [exact Hc|]. apply Habsent. rewrite Hc. vm_compute. reflexivity.
Defined.

(** A status of the table, over HTTP/2. *)
Example http2_statusMessage_404 :
  (res_statusMessage <$>
     (outcome (probe (H:=Sample.node)
                 (Sample.request "https://example.com/" (Some "2.0"))
                 (Sample.http2 404)) ≫=
      fun o => match o with Resolved r => Some r | Rejected _ => None end))
  = Some (Some "Not Found").
Proof. vm_compute. reflexivity. Qed.

Lemma http2_insecure_scheme_witness :
  returned (nettime (H:=Sample.node) Sample.steady
              (Sample.request "http://example.com/" (Some "2.0")))
  = Some (Rejected insecureScheme) /\
  log (nettime (H:=Sample.node) Sample.steady
         (Sample.request "http://example.com/" (Some "2.0")))
  = [Request (Sample.request "http://example.com/" (Some "2.0")) []].
Proof.
  destruct (Sample.parse "http://example.com/") as [u|] eqn:Hu;
    [|vm_compute in Hu; discriminate].
  destruct (http2_insecure_scheme (H:=Sample.node)
              (Sample.request "http://example.com/" (Some "2.0")) u
              Sample.steady eq_refl Hu) as (_ & Hret & Hlog & _).
  - vm_compute in Hu. injection Hu as <-. simpl. discriminate.
  - split; [exact Hret|exact Hlog].
Defined.

(** *** The averaging fold *)




(** A Run Set of one status averages to a Result that repeats it. *)
Example average_of_equal_status :
  exists avg,
    computeAverageTimings [Sample.status 200 "OK"; Sample.status 200 "OK"]
    = inr avg /\
    res_statusCode avg = Some (Num 200) /\ res_statusMessage avg = Some "OK".
Proof. eexists. split; [vm_compute; reflexivity|]. by split. Qed.

(** *** What a probe keeps true *)

Section Soundness.
Context `{Node}.
Variable options : NettimeOptions.

Lemma makeSingleRequest_sound start opened :
  sound options (makeSingleRequest options start opened).
Proof.
  destruct (makeSingleRequest_executed options start opened)
    as [(Hst & Hd & Hr & Hf & Hc & Hcl & Hpw & Hv & Hs & Ho & Ht & He) Hset].
  set (p := makeSingleRequest options start opened) in *. unfold sound.
  split; [done|]. split.
  { rewrite Hd. unfold wantsData.
    by destruct (truthyStr (opt_outputFile options) || opt_returnResponse options). }
  split.
  { intros E. rewrite Ht, E. split; [|by rewrite lookup_insert_eq].
    rewrite (proj1 Hs E). by eexists. }
  split. { intros [E|E]; [congruence|by apply Hs]. }
  split. { rewrite Hpw. lia. }
  intros r E. by rewrite E in Hset.
Qed.

Lemma sound_withTimings k v p :
  sound options p -> sound options (withTimings <[k:=v]> p).
Proof.
  intros (Hc & Hd & Hs & Hcl & Hp & Hr). unfold sound; simpl.
  split; [done|]. split; [done|]. split; [|split; [done|split]].
  - intros E. destruct (Hs E). split; [done|].
    apply lookup_insert_is_Some'. by right.
  - intros E. destruct (Hp E) as (? & ? & ? & ? & ?).
    repeat split; try done; apply lookup_insert_is_Some'; by right.
  - intros r E. destruct (Hr r E) as (? & ? & ? & ? & ? & ?).
    repeat split; try done; apply lookup_insert_is_Some'; by right.
Qed.

Lemma sound_withData d p :
  is_Some d -> is_Some (data p) ->
  sound options p -> sound options (withData d p).
Proof.
  intros [d' ->] [d0 E] (Hc & Hd & Hrest). unfold sound; simpl.
  rewrite E in Hd. done.
Qed.

Lemma sound_withResponse r p :
  sound options p -> sound options (withResponse r p).
Proof. done. Qed.

Lemma sound_withFirstByte b p :
  sound options p -> sound options (withFirstByte b p).
Proof. done. Qed.

Lemma sound_withOnResponse b p :
  sound options p -> sound options (withOnResponse b p).
Proof. done. Qed.

Lemma sound_emit e p : sound options p -> sound options (emit e p).
Proof.
  intros (Hc & Hd & Hs & Hcl & Hp & Hr). unfold sound; simpl.
  split; [done|]. split; [done|]. split; [done|]. split; [done|]. split.
  - intros E. destruct (Hp E) as (? & ? & ? & ? & ?).
    repeat split; try done. apply Exists_app. by left.
  - intros r E. destruct (Hr r E) as (Hw & ? & ? & ? & ? & ?).
    repeat split; try done. intros Ho. apply Exists_app. left. by apply Hw.
Qed.

Lemma sound_reject e p : sound options p -> sound options (reject e p).
Proof.
  intros Hp. unfold reject. destruct (settled p) eqn:E; [done|].
  destruct Hp as (Hc & Hd & Hs & Hcl & Hp & Hr). unfold sound; simpl.
  split; [done|]. split; [done|]. split; [done|]. split; [done|].
  split; [done|]. intros r [=].
Qed.

Lemma sound_listenToSocket now p :
  is_Some (transport p) -> sound options p ->
  sound options (listenToSocket now p).
Proof.
  intros Ht Hp. apply (sound_withTimings "socketOpen" (getTiming now p)) in Hp.
  destruct Hp as (Hc & Hd & Hs & Hcl & Hp & Hr).
  unfold sound, listenToSocket; simpl in *.
  split; [done|]. split; [done|]. split; [|done].
  intros _. split; [done|]. apply lookup_insert_is_Some'. by left.
Qed.

Lemma sound_withClosing p :
  onSocket p = true -> sound options p -> sound options (withClosing true p).
Proof.
  intros Ho (Hc & Hd & Hs & Hcl & Hp & Hr). unfold sound; simpl.
  split; [done|]. split; [done|]. split; [done|]. split; done.
Qed.

Lemma sound_returnResult p :
  is_Some (timings p !! "socketOpen") ->
  is_Some (timings p !! "socketClose") ->
  (truthyStr (opt_outputFile options) = true -> Exists isWrite (effects p)) ->
  sound options p -> sound options (returnResult options p).
Proof.
  intros Hopen Hclose Hw Hp. unfold returnResult, resolve.
  destruct (settled p) eqn:E; [done|].
  destruct Hp as (Hc & Hd & Hs & Hcl & Hp & Hr). unfold sound; simpl.
  split; [done|]. split; [done|]. split; [done|]. split; [done|].
  split; [done|]. intros r [= <-]. simpl.
  repeat split; try done.
  - by intros ->.
  - by intros ->.
  - intros E'. rewrite E'. destruct (data p); [by eexists|].
    unfold wantsData in Hd. rewrite E', orb_true_r in Hd. done.
Qed.

Lemma sound_writeOutputFile p :
  is_Some (transport p) ->
  truthyStr (opt_outputFile options) = true ->
  is_Some (data p) ->
  is_Some (timings p !! "socketOpen") ->
  is_Some (timings p !! "socketClose") ->
  sound options p -> sound options (writeOutputFile options p).
Proof.
  intros Htr Hout Hdata Hopen Hclose Hp. unfold writeOutputFile.
  set (q := match response p with
            | Some r =>
                if opt_includeHeaders options
                then prependOutputHeader r p else p
            | None => p
            end).
  assert (Hq : sound options q /\ timings q = timings p /\
               transport q = transport p).
  { unfold q. destruct (response p); [|done].
    destruct (opt_includeHeaders options); [|done].
    split; [|done]. unfold prependOutputHeader.
    apply sound_withData; [|done|done].
    destruct Hdata as [d ->]. by eexists. }
  destruct Hq as (Hq & Et & Etr). clearbody q.
  apply (sound_emit (WriteFile (default "" (opt_outputFile options))
                       (default "" (data q))
                       (if opt_appendToOutput options then "a" else "w"))) in Hq.
  destruct Hq as (Hc & Hd & Hs & Hcl & Hpw & Hr). unfold sound; simpl in *.
  rewrite Et, Etr in *.
  split; [done|]. split; [done|]. split; [done|]. split; [done|]. split.
  - intros _. repeat split; try done. apply Exists_app. right.
    by apply Exists_cons_hd.
  - intros r E. destruct (Hr r E) as (_ & ? & ? & ? & ? & ?).
    repeat split; try done. intros _. apply Exists_app. right.
    by apply Exists_cons_hd.
Qed.

Lemma sound_checkSocketClosed now p :
  onSocket p = true -> sound options p ->
  sound options (checkSocketClosed options now p).
Proof.
  intros Ho Hp. unfold checkSocketClosed.
  destruct (socketClosed p); [done|].
  pose proof Hp as (_ & _ & Hs & _). destruct (Hs Ho) as [Htr Hopen].
  apply (sound_withTimings "socketClose" (getTiming now p)) in Hp.
  set (q := withTimings <["socketClose":=getTiming now p]> p) in *.
  assert (Hopen' : is_Some (timings q !! "socketOpen")).
  { unfold q; simpl. apply lookup_insert_is_Some'. by right. }
  assert (Hclose' : is_Some (timings q !! "socketClose")).
  { unfold q; simpl. apply lookup_insert_is_Some'. by left. }
  destruct (truthyStr (opt_outputFile options)) eqn:Hout; simpl.
  - case_bool_decide as Hd.
    + by apply sound_writeOutputFile.
    + destruct Hp as (_ & Hdata & _). exfalso. apply Hd.
      change (data q) with (data p) in *.
      destruct (data p); [by eexists|].
      unfold wantsData in Hdata. by rewrite Hout in Hdata.
  - apply sound_returnResult; [done|done| |done].
    rewrite Hout. discriminate.
Qed.

Lemma sound_written error p :
  sound options p -> sound options (written options error p).
Proof.
  intros Hp. unfold written. destruct (pendingWrites p) as [|n] eqn:En; [done|].
  pose proof Hp as (Hc & Hd & Hs & Hcl & Hpw & Hr).
  destruct Hpw as (Htr & Hout & Hw & Hopen & Hclose); [lia|].
  assert (Hq : sound options (withPendingWrites n p)).
  { unfold sound; simpl.
    split; [done|]. split; [done|]. split; [done|]. split; [done|].
    split; [|done]. intros _. done. }
  destruct error as [e|].
  - case_decide.
    + apply sound_returnResult; simpl; [done|done| |].
      * intros _. rewrite <- app_assoc. apply Exists_app. by left.
      * by apply sound_emit, sound_emit.
    + by apply sound_reject.
  - by apply sound_returnResult.
Qed.

Lemma handle_sound now ev p :
  sound options p -> sound options (handle options now ev p).
Proof.
  intros Hp. unfold handle.
  destruct (transport p) as [tr|] eqn:Etr; [|done].
  pose proof Hp as (_ & Hdata & _ & Hclosing & _).
  destruct ev as [| | | | |m|headers|chunk| | |e| | |error].
  - destruct tr; [|done]. apply sound_listenToSocket; [by rewrite Etr|done].
  - destruct (onSocket p); [|done]. by apply sound_withTimings.
  - destruct (onSocket p); [|done]. by apply sound_withTimings.
  - destruct (onSocket p); [|done]. by apply sound_withTimings.
  - destruct (onSocket p) eqn:Ho; [|done]. by apply sound_checkSocketClosed.
  - destruct tr; [|done]. done.
  - destruct tr; [done|]. by destruct (onResponse p).
  - destruct (onResponse p); [|done].
    assert (Hq : sound options (checkFirstByte now p) /\
                 data (checkFirstByte now p) = data p).
    { unfold checkFirstByte. destruct (firstByte p); [done|].
      split; [|done]. by apply sound_withFirstByte, sound_withTimings. }
    destruct Hq as [Hq Ed]. destruct (data (checkFirstByte now p)) eqn:E;
      [|done]. destruct chunk; [|done].
    apply sound_withData; [by eexists|by rewrite E|done].
  - destruct (onResponse p); [|done].
    pose proof (sound_withTimings "contentTransfer" (getTiming now p) p Hp) as Hq.
    destruct tr; [done|].
    apply sound_withClosing; [|by apply sound_emit].
    simpl. apply Hclosing. by right.
  - destruct (closing p) eqn:Ec; [|done].
    apply sound_checkSocketClosed; [apply Hclosing; by left|done].
  - by apply sound_reject.
  - destruct (truthyNum (opt_timeout options)); [|done].
    destruct tr; [by apply sound_reject, sound_emit|].
    destruct (onResponse p); [by apply sound_emit|done].
  - destruct (truthyNum (opt_timeout options)); done.
  - by apply sound_written.
Qed.

Lemma probe_sound x : sound options (probe options x).
Proof.
  apply probe_invariant.
  - apply makeSingleRequest_sound.
  - intros now ev p _. apply handle_sound.
Qed.

Lemma probe_extend x now ev :
  probe options (extend x now ev) = handle options now ev (probe options x).
Proof. unfold probe, extend. simpl. by rewrite foldl_app. Qed.

End Soundness.

(** X1: a result carries the response headers only if [includeHeaders]
    is set, and the response body exactly when [returnResponse] is set. *)
Theorem result_keeps_what_was_asked `{Node} (options : NettimeOptions)
    (x : Exchange) (r : Result) :
  outcome (probe options x) = Some (Resolved r) ->
  (opt_includeHeaders options = false -> res_headers r = None) /\
  (opt_returnResponse options = false -> res_response r = None) /\
  (opt_returnResponse options = true -> is_Some (res_response r)).
Proof.
  intros Hout. apply outcome_resolved in Hout as (r0 & Hset & ->).
  destruct (probe_sound options x) as (_ & _ & _ & _ & _ & Hr).
  destruct (Hr r0 Hset) as (_ & _ & _ & ? & ? & ?). done.
Qed.

Lemma result_keeps_what_was_asked_witness :
  exists r : Result,
    outcome (probe (H:=Sample.node) Cases.bodyOnly Cases.closed1)
    = Some (Resolved r) /\
    res_headers r = None /\ res_response r = Some "hello".
Proof.
  destruct (outcome (probe (H:=Sample.node) Cases.bodyOnly Cases.closed1))
    as [[r|e]|] eqn:E; [|vm_compute in E; discriminate ..].
  exists r. split; [reflexivity|].
  destruct (result_keeps_what_was_asked (H:=Sample.node) _ _ r E)
    as (Hh & _ & _).
  split; [by apply Hh|]. vm_compute in E. by injection E as <-.
Defined.

(** X2: the timings of every result hold [socketOpen] and
    [socketClose]: a probe resolves only from the close of a socket it
    listened to. *)
Theorem result_has_socket_timings `{Node} (options : NettimeOptions)
    (x : Exchange) (r : Result) :
  outcome (probe options x) = Some (Resolved r) ->
  is_Some (res_timings r !! "socketOpen") /\
  is_Some (res_timings r !! "socketClose").
Proof.
  intros Hout. apply outcome_resolved in Hout as (r0 & Hset & ->).
  destruct (probe_sound options x) as (_ & _ & _ & _ & _ & Hr).
  destruct (Hr r0 Hset) as (_ & ? & ? & _). done.
Qed.

Lemma result_has_socket_timings_witness :
  exists r : Result,
    outcome (probe (H:=Sample.node) Cases.plain Cases.closed1)
    = Some (Resolved r) /\
    is_Some (res_timings r !! "socketOpen") /\
    is_Some (res_timings r !! "socketClose").
Proof.
  destruct (outcome (probe (H:=Sample.node) Cases.plain Cases.closed1))
    as [[r|e]|] eqn:E; [|vm_compute in E; discriminate ..].
  exists r. split; [reflexivity|].
  exact (result_has_socket_timings (H:=Sample.node) _ _ r E).
Defined.

(** X3: with an output file, a probe has called [writeFile] before it
    resolves, and the socket closing does not resolve it: the promise
    stays as it was until the callback of [writeFile] runs. *)
Theorem resolves_after_the_write `{Node} (options : NettimeOptions)
    (x : Exchange) :
  truthyStr (opt_outputFile options) = true ->
  (forall r, outcome (probe options x) = Some (Resolved r) ->
             Exists isWrite (effects (probe options x))) /\
  (forall now,
      settled (probe options (extend x now EvClose))
      = settled (probe options x)).
Proof.
  intros Hfile. split.
  - intros r Hout. apply outcome_resolved in Hout as (r0 & Hset & _).
    destruct (probe_sound options x) as (_ & _ & _ & _ & _ & Hr).
    destruct (Hr r0 Hset) as (Hw & _). by apply Hw.
  - intros now. rewrite probe_extend.
    destruct (probe_sound options x) as (Hc & Hd & _).
    set (p := probe options x) in *. unfold handle.
    destruct (transport p); [|done]. destruct (onSocket p); [|done].
    unfold checkSocketClosed. rewrite Hc. simpl. rewrite Hfile. simpl.
    unfold wantsData in Hd. rewrite Hfile in Hd. simpl in Hd.
    destruct (data p) eqn:Ed; [|done]. rewrite bool_decide_true by by eexists.
    unfold writeOutputFile. simpl.
    destruct (response p); [destruct (opt_includeHeaders options)|]; done.
Qed.

Lemma resolves_after_the_write_witness :
  settled (probe (H:=Sample.node) Cases.savedStrict
             (extend Cases.waiting1 (101, 2000) EvClose))
  = settled (probe (H:=Sample.node) Cases.savedStrict Cases.waiting1).
Proof.
  exact (proj2 (resolves_after_the_write (H:=Sample.node) Cases.savedStrict
                  Cases.waiting1 eq_refl) (101, 2000)).
Defined.

(** *** Settling *)

(** X4: a probe settles once: after its promise has resolved or been
    rejected, no later event changes the outcome, except that the
    timings of a result are the object the handlers go on writing to. *)
Theorem probe_settles_once `{Node} (options : NettimeOptions)
    (start opened : hrtime) (before after : list (hrtime * Event))
    (o : Outcome Result) :
  settled (probe options {| x_start := start; x_opened := opened;
                            x_events := before |}) = Some o ->
  settled (probe options {| x_start := start; x_opened := opened;
                            x_events := before ++ after |}) = Some o /\
  (forall e, o = Rejected e ->
     outcome (probe options {| x_start := start; x_opened := opened;
                               x_events := before ++ after |})
     = Some (Rejected e)).
Proof.
  intros Hs.
  assert (Hafter : settled (probe options {| x_start := start; x_opened := opened;
                                             x_events := before ++ after |})
                   = Some o).
  { unfold probe in *. simpl in *. rewrite foldl_app.
    apply (foldl_invariant _ (fun p => settled p = Some o)); [done|].
    intros [now ev] p _. apply handle_settled. }
  split; [done|]. intros e ->. unfold outcome. by rewrite Hafter.
Qed.

Lemma probe_settles_once_witness :
  outcome (probe (H:=Sample.node) Cases.plain
             {| x_start := (100, 0); x_opened := (100, 0);
                x_events := [((100, 1000000), EvSocket);
                             ((100, 2000000), EvError Cases.diskFull)]
                            ++ [((100, 3000000), EvClose)] |})
  = Some (Rejected Cases.diskFull).
Proof.
  apply (proj2 (probe_settles_once (H:=Sample.node) Cases.plain (100, 0) (100, 0)
                  [((100, 1000000), EvSocket);
                   ((100, 2000000), EvError Cases.diskFull)]
                  [((100, 3000000), EvClose)]
                  (Rejected Cases.diskFull) eq_refl)).
  reflexivity.
Defined.

(** X5: no statement sets [socketClosed], so with an output file every
    close that is handled, the ['close'] of the socket and the callback
    of [client.close] alike, calls [writeFile] once more. *)
Theorem every_close_writes_the_file `{Node} (options : NettimeOptions)
    (x : Exchange) (now : hrtime) (ev : Event) :
  truthyStr (opt_outputFile options) = true ->
  (ev = EvClose /\ onSocket (probe options x) = true) \/
  (ev = EvClientClosed /\ closing (probe options x) = true) ->
  socketClosed (probe options x) = false /\
  pendingWrites (probe options (extend x now ev))
  = S (pendingWrites (probe options x)) /\
  exists content : string,
    effects (probe options (extend x now ev))
    = effects (probe options x) ++
      [WriteFile (default "" (opt_outputFile options)) content
                 (if opt_appendToOutput options then "a" else "w")].
Proof.
  intros Hfile Hev. rewrite probe_extend.
  destruct (probe_sound options x) as (Hc & Hd & Hs & Hcl & _).
  set (p := probe options x) in *. split; [done|].
  assert (Ho : onSocket p = true).
  { destruct Hev as [[_ Ho]|[_ Hclosing]]; [done|]. apply Hcl. by left. }
  destruct (Hs Ho) as [[tr Htr] _].
  assert (Hstep : handle options now ev p = checkSocketClosed options now p).
  { unfold handle. rewrite Htr.
    destruct Hev as [[-> _]|[-> Hclosing]]; [by rewrite Ho|by rewrite Hclosing]. }
  rewrite Hstep. unfold checkSocketClosed. rewrite Hc. simpl. rewrite Hfile.
  unfold wantsData in Hd. rewrite Hfile in Hd. simpl in Hd.
  destruct (data p) eqn:Ed; [|done].
  rewrite bool_decide_true by by eexists.
  unfold writeOutputFile. simpl.
  destruct (response p); [destruct (opt_includeHeaders options)|];
    simpl; (split; [done|]); by eexists.
Qed.

Lemma every_close_writes_the_file_witness :
  pendingWrites (probe (H:=Sample.node) Cases.saved2
                   (extend (extend Cases.closed2 (101, 3000) EvClose)
                           (101, 4000) EvClientClosed))
  = 3%nat.
Proof.
  destruct (every_close_writes_the_file (H:=Sample.node) Cases.saved2
              (extend Cases.closed2 (101, 3000) EvClose) (101, 4000)
              EvClientClosed eq_refl) as (_ & -> & _).
  - right. split; reflexivity.
  - reflexivity.
Defined.

Lemma handle_write_error `{Node} (options : NettimeOptions) (now : hrtime)
    (e : JsError) (p : Probe) :
  is_Some (transport p) ->
  (0 < pendingWrites p)%nat ->
  settled p = None ->
  (opt_failOnOutputFileError options = Some false ->
   (exists r, outcome (handle options now (EvWritten (Some e)) p)
              = Some (Resolved r)) /\
   effects (handle options now (EvWritten (Some e)) p)
   = effects p ++ [ConsoleError (message e); SetExitCode 2]) /\
  (opt_failOnOutputFileError options <> Some false ->
   outcome (handle options now (EvWritten (Some e)) p) = Some (Rejected e) /\
   effects (handle options now (EvWritten (Some e)) p) = effects p).
Proof.
  intros [tr Htr] Hpend Hnone. unfold handle, written. rewrite Htr.
  destruct (pendingWrites p) as [|n]; [lia|]. split.
  - intros Hf. rewrite decide_True by done.
    unfold returnResult, resolve, outcome. simpl. rewrite Hnone. simpl.
    split; [by eexists|]. by rewrite <- app_assoc.
  - intros Hf. rewrite decide_False by done.
    unfold reject, outcome. simpl. by rewrite Hnone.
Qed.

(** X6: when [writeFile] reports an error to a probe that has not
    settled: with [failOnOutputFileError] set to false the error message
    is printed, the exit code becomes 2 and the probe resolves; in every
    other case, the option left out included, the probe is rejected with
    that error. *)
Theorem failed_write_policy `{Node} (options : NettimeOptions) (x : Exchange)
    (now : hrtime) (e : JsError) :
  (0 < pendingWrites (probe options x))%nat ->
  settled (probe options x) = None ->
  (opt_failOnOutputFileError options = Some false ->
   (exists r, outcome (probe options (extend x now (EvWritten (Some e))))
              = Some (Resolved r)) /\
   effects (probe options (extend x now (EvWritten (Some e))))
   = effects (probe options x) ++ [ConsoleError (message e); SetExitCode 2]) /\
  (opt_failOnOutputFileError options <> Some false ->
   outcome (probe options (extend x now (EvWritten (Some e))))
   = Some (Rejected e) /\
   effects (probe options (extend x now (EvWritten (Some e))))
   = effects (probe options x)).
Proof.
  intros Hpend Hnone. rewrite probe_extend.
  destruct (probe_sound options x) as (_ & _ & _ & _ & Hp & _).
  destruct (Hp Hpend) as (Htr & _).
  by apply handle_write_error.
Qed.

Lemma failed_write_policy_witness :
  outcome (probe (H:=Sample.node) Cases.savedStrict
             (extend Cases.closed1 (101, 900000)
                     (EvWritten (Some Cases.diskFull))))
  = Some (Rejected Cases.diskFull) /\
  exists r,
    outcome (probe (H:=Sample.node) Cases.savedLenient
               (extend Cases.closed1 (101, 900000)
                       (EvWritten (Some Cases.diskFull))))
    = Some (Resolved r).
Proof.
  split.
  - apply (failed_write_policy (H:=Sample.node) Cases.savedStrict Cases.closed1
             (101, 900000) Cases.diskFull); [vm_compute; lia|reflexivity|].
    discriminate.
  - apply (failed_write_policy (H:=Sample.node) Cases.savedLenient Cases.closed1
             (101, 900000) Cases.diskFull); [vm_compute; lia|reflexivity|].
    reflexivity.
Defined.

(** X7: an ['abort'] event never changes a probe, its handler testing a
    variable that is never assigned; a ['timeout'] event does nothing
    without the [timeout] option.  With it, over HTTP/1 and once the
    request is made, the handler aborts the request and rejects a probe
    that has not settled with ETIMEDOUT; over HTTP/2 it never settles
    the promise: once the stream is listened to, which it is whenever
    the executor has not thrown, the handler throws at
    [request.abort()], a method that a stream of HTTP/2 lacks, before it
    reaches [reject]. *)
Theorem timeout_aborts_and_rejects `{Node} (options : NettimeOptions)
    (x : Exchange) (now : hrtime) :
  probe options (extend x now EvAbort) = probe options x /\
  (truthyNum (opt_timeout options) = false ->
   probe options (extend x now EvTimeout) = probe options x) /\
  (truthyNum (opt_timeout options) = true ->
   opt_httpVersion options <> Some "2.0" ->
   is_Some (transport (probe options x)) ->
   settled (probe options x) = None ->
   outcome (probe options (extend x now EvTimeout)) = Some (Rejected timedOut) /\
   code timedOut = Some "ETIMEDOUT" /\
   effects (probe options (extend x now EvTimeout))
   = effects (probe options x) ++ [RequestAbort]) /\
  (truthyNum (opt_timeout options) = true ->
   opt_httpVersion options = Some "2.0" ->
   settled (probe options (extend x now EvTimeout))
   = settled (probe options x) /\
   (onResponse (probe options x) = true ->
    effects (probe options (extend x now EvTimeout))
    = effects (probe options x) ++ [Uncaught abortIsNotAFunction]) /\
   (settled (makeSingleRequest options (x_start x) (x_opened x)) = None ->
    onResponse (probe options x) = true)).
Proof.
  rewrite !probe_extend.
  destruct (probe_answered options x) as (Hv & _).
  pose proof (probe_listening options x) as Hl.
  pose proof (probe_transport options x) as Ht.
  destruct (makeSingleRequest_executed options (x_start x) (x_opened x))
    as [(_ & _ & _ & _ & _ & _ & _ & _ & _ & Hon & _) _].
  assert (Hunmade : transport (probe options x) = None ->
                    onResponse (probe options x) = false).
  { intros E. rewrite probe_unmade by by rewrite <- Ht.
    destruct (onResponse (makeSingleRequest options (x_start x) (x_opened x)));
      [|done].
    rewrite Ht, Hon in E; done. }
  set (p := probe options x) in *. unfold handle.
  split; [|split; [|split]].
  - destruct (transport p); [|done].
    by destruct (truthyNum (opt_timeout options)).
  - intros ->. by destruct (transport p).
  - intros -> Hv1 [tr Htr] Hnone. rewrite Htr in *.
    destruct tr; [|done]. unfold reject, outcome. simpl. by rewrite Hnone.
  - intros -> Hv2. destruct (transport p) as [[|]|] eqn:Etr.
    + done.
    + split; [by destruct (onResponse p)|].
      split; [intros E; by rewrite E|].
      intros Hs. destruct (Hl Hs) as [_ Hr]. by apply Hr.
    + split; [done|]. split; [intros E; by rewrite Hunmade in E by done|].
      intros Hs. destruct (Hl Hs) as [[tr Htr] _]. congruence.
Qed.

Lemma timeout_aborts_and_rejects_witness :
  outcome (probe (H:=Sample.node) Cases.timed
             (extend Cases.waiting1 (102, 0) EvTimeout))
  = Some (Rejected timedOut) /\
  probe (H:=Sample.node) Cases.plain (extend Cases.waiting1 (102, 0) EvTimeout)
  = probe (H:=Sample.node) Cases.plain Cases.waiting1 /\
  settled (probe (H:=Sample.node) Cases.timed2
             (extend Cases.waiting2 (102, 0) EvTimeout)) = None /\
  effects (probe (H:=Sample.node) Cases.timed2
             (extend Cases.waiting2 (102, 0) EvTimeout))
  = effects (probe (H:=Sample.node) Cases.timed2 Cases.waiting2)
    ++ [Uncaught abortIsNotAFunction].
Proof.
  pose proof (timeout_aborts_and_rejects (H:=Sample.node) Cases.timed
                Cases.waiting1 (102, 0)) as (_ & _ & H1 & _).
  pose proof (timeout_aborts_and_rejects (H:=Sample.node) Cases.plain
                Cases.waiting1 (102, 0)) as (_ & H0 & _).
  pose proof (timeout_aborts_and_rejects (H:=Sample.node) Cases.timed2
                Cases.waiting2 (102, 0)) as (_ & _ & _ & H2).
  destruct H1 as (Hout & _); [reflexivity|discriminate|by eexists|reflexivity|].
  destruct (H2 eq_refl eq_refl) as (Hs & He & Hon).
  split; [exact Hout|]. split; [exact (H0 eq_refl)|].
  split; [rewrite Hs; reflexivity|]. apply He, Hon. reflexivity.
Defined.

(** *** Why a probe is rejected *)

Section Rejections.
Context `{Node}.
Variable options : NettimeOptions.

Lemma returnResult_rejected q e :
  settled (returnResult options q) = Some (Rejected e) ->
  settled q = Some (Rejected e).
Proof.
  unfold returnResult, resolve.
  destruct (settled q) as [[?|?]|] eqn:E; simpl; rewrite ?E; done.
Qed.

Lemma reject_rejected e' q e :
  settled (reject e' q) = Some (Rejected e) ->
  settled q = Some (Rejected e) \/ (settled q = None /\ e = e').
Proof.
  unfold reject. destruct (settled q) as [[?|?]|] eqn:E; simpl;
    rewrite ?E; [auto..|].
  intros [= ->]. by right.
Qed.

Lemma checkSocketClosed_rejected now q e :
  settled (checkSocketClosed options now q) = Some (Rejected e) ->
  settled q = Some (Rejected e).
Proof.
  unfold checkSocketClosed. destruct (socketClosed q); [done|].
  case_match.
  - unfold writeOutputFile. simpl.
    destruct (response q); [destruct (opt_includeHeaders options)|]; done.
  - intros Hr. by apply returnResult_rejected in Hr.
Qed.

Lemma handle_rejected now ev p e :
  sound options p ->
  settled (handle options now ev p) = Some (Rejected e) ->
  settled p = Some (Rejected e) \/
  ev = EvError e \/
  (ev = EvTimeout /\ truthyNum (opt_timeout options) = true /\ e = timedOut /\
   transport p = Some Http1) \/
  (ev = EvWritten (Some e) /\
   opt_failOnOutputFileError options <> Some false /\
   truthyStr (opt_outputFile options) = true).
Proof.
  intros (_ & _ & _ & _ & Hpend & _). unfold handle.
  destruct (transport p) as [tr|]; [|auto].
  destruct ev as [| | | | |m|headers|chunk| | |e'| | |error]; simpl.
  - destruct tr; auto.
  - destruct (onSocket p); auto.
  - destruct (onSocket p); auto.
  - destruct (onSocket p); auto.
  - destruct (onSocket p); [|auto]. intros Hr.
    apply checkSocketClosed_rejected in Hr. auto.
  - destruct tr; auto.
  - destruct tr; [auto|]. destruct (onResponse p); auto.
  - destruct (onResponse p); [|auto]. unfold checkFirstByte.
    destruct (firstByte p); simpl; destruct (data p); destruct chunk;
      simpl; auto.
  - destruct (onResponse p); [|auto]. destruct tr; simpl; auto.
  - destruct (closing p); [|auto]. intros Hr.
    apply checkSocketClosed_rejected in Hr. auto.
  - intros Hr. apply reject_rejected in Hr as [Hr|[_ ->]]; auto.
  - destruct (truthyNum (opt_timeout options)) eqn:Et; [|auto].
    destruct tr; [|destruct (onResponse p); auto].
    intros Hr. apply reject_rejected in Hr as [Hr|[_ ->]]; auto 8.
  - destruct (truthyNum (opt_timeout options)); auto.
  - unfold written. destruct (pendingWrites p) as [|n] eqn:En; [auto|].
    destruct (Hpend ltac:(lia)) as (_ & Hfile & _).
    destruct error as [e'|].
    + case_decide as Hf.
      * intros Hr. apply returnResult_rejected in Hr. auto.
      * intros Hr. apply reject_rejected in Hr as [Hr|[_ ->]]; auto 8.
    + intros Hr. apply returnResult_rejected in Hr. auto.
Qed.

Lemma call_rejected c rest p :
  byExecutor c -> settled p = None ->
  (forall e, settled (rest (emit c p)) = Some (Rejected e) ->
             thrown (rest (emit c p)) e) ->
  forall e, settled (call c rest p) = Some (Rejected e) ->
            thrown (call c rest p) e.
Proof.
  intros Hc Hs Hrest e. unfold call.
  destruct (throws (effects p) c) as [error|] eqn:Et; [|apply Hrest].
  unfold reject. simpl. rewrite Hs. simpl. intros [= <-].
  by exists (effects p), c.
Qed.

Lemma sendRequest_rejected p :
  settled p = None ->
  forall e, settled (sendRequest options p) = Some (Rejected e) ->
            thrown (sendRequest options p) e.
Proof.
  intros Hs. unfold sendRequest.
  destruct (truthyNum (opt_timeout options)),
           (truthyStr (opt_data options));
    repeat (apply call_rejected; [done..|]); intros e; simpl; by rewrite Hs.
Qed.

Lemma makeSingleRequest_rejected x e :
  settled (makeSingleRequest options (x_start x) (x_opened x))
  = Some (Rejected e) ->
  rejectionCause options x e.
Proof.
  unfold rejectionCause.
  generalize (eq_refl (makeSingleRequest options (x_start x) (x_opened x))).
  generalize (makeSingleRequest options (x_start x) (x_opened x)) at 1 3 4.
  intros p0 Hp0. unfold makeSingleRequest, getParameters in Hp0.
  destruct (newURL (opt_url options)) as [u|] eqn:Hu; simpl in Hp0.
  - destruct (decide (opt_httpVersion options = Some "2.0")) as [Hv|Hv].
    + case_decide.
      * subst p0. intros [= <-]. right. left. eauto.
      * intros Hr. right. right. left. subst p0. revert e Hr.
        apply call_rejected; [done..|].
        unfold makeHTTP2Request. apply call_rejected; [done..|].
        apply call_rejected; [done..|]. by apply sendRequest_rejected.
    + intros Hr. right. right. left. subst p0. revert e Hr.
      unfold makeHTTP1Request. apply call_rejected; [done..|].
      apply sendRequest_rejected. by case_decide.
  - subst p0. intros [= <-]. auto.
Qed.

Lemma probe_rejected x e :
  settled (probe options x) = Some (Rejected e) -> rejectionCause options x e.
Proof.
  assert (Hinv : (sound options (probe options x) /\
                  matchesVersion options (transport (probe options x))) /\
                 forall e, settled (probe options x) = Some (Rejected e) ->
                           rejectionCause options x e).
  { apply (probe_invariant options
             (fun p => (sound options p /\
                        matchesVersion options (transport p)) /\
                       forall e, settled p = Some (Rejected e) ->
                                 rejectionCause options x e)).
    - split; [split; [apply makeSingleRequest_sound|]
             |apply makeSingleRequest_rejected].
      apply (makeSingleRequest_executed options (x_start x) (x_opened x)).
    - intros now ev p Hin [[Hsound Hv] Hrej].
      split; [split; [by apply handle_sound|by rewrite handle_transport]|].
      intros e' He'. apply (handle_rejected now ev p e' Hsound) in He'
        as [He'|[->|[(-> & Ht & -> & Htr)|(-> & Hf & Hfile)]]].
      + by apply Hrej.
      + unfold rejectionCause. do 3 right. left. by exists now.
      + unfold rejectionCause. do 4 right. left. split; [done|].
        split; [done|]. rewrite Htr in Hv. split; [done|]. by exists now.
      + unfold rejectionCause. do 5 right. split; [done|].
        split; [done|]. by exists now. }
  apply Hinv.
Qed.

End Rejections.

(** X8: a probe is rejected for one of six reasons only: the URL does
    not parse; HTTP/2 is asked for a scheme other than [https:]; a call
    that the executor made to the platform threw the error, that call
    being the last one of the executor; the request or the client
    emitted the error; over HTTP/1, the [timeout] option is set and a
    ['timeout'] event came; or an output file is set, its write failed
    with the error and [failOnOutputFileError] is not false. *)
Theorem rejection_has_a_cause `{Node} (options : NettimeOptions)
    (x : Exchange) (e : JsError) :
  outcome (probe options x) = Some (Rejected e) ->
  (newURL (opt_url options) = None /\ e = invalidURL (opt_url options)) \/
  (opt_httpVersion options = Some "2.0" /\ e = insecureScheme /\
   exists u, newURL (opt_url options) = Some u /\ url_protocol u <> "https:") \/
  thrown (makeSingleRequest options (x_start x) (x_opened x)) e \/
  (exists now, (now, EvError e) ∈ x_events x) \/
  (truthyNum (opt_timeout options) = true /\ e = timedOut /\
   opt_httpVersion options <> Some "2.0" /\
   exists now, (now, EvTimeout) ∈ x_events x) \/
  (opt_failOnOutputFileError options <> Some false /\
   truthyStr (opt_outputFile options) = true /\
   exists now, (now, EvWritten (Some e)) ∈ x_events x).
Proof.
  intros Hout. apply (probe_rejected options x e).
  unfold outcome in Hout. by destruct (settled (probe options x)) as [[?|?]|].
Qed.

Lemma rejection_has_a_cause_witness :
  (exists now,
      (now, EvWritten (Some Cases.diskFull))
      ∈ x_events (extend Cases.closed1 (101, 900000)
                         (EvWritten (Some Cases.diskFull)))) /\
  thrown (H:=Refusing.node)
    (makeSingleRequest (H:=Refusing.node) Refusing.fetch (100, 0) (100, 0))
    (Refusing.invalidProtocol "ftp:").
Proof.
  split.
  - destruct (rejection_has_a_cause (H:=Sample.node) Cases.savedStrict
                (extend Cases.closed1 (101, 900000)
                        (EvWritten (Some Cases.diskFull)))
                Cases.diskFull eq_refl)
      as [[Hu _]|[[Hv _]|[Ht|[[now Hin]|[(Ht & _)|(_ & _ & Hw)]]]]].
    + vm_compute in Hu. discriminate.
    + discriminate.
    + destruct Ht as (made & c & _ & _ & Ht). discriminate.
    + exfalso. vm_compute in Hin.
      repeat (apply elem_of_cons in Hin; destruct Hin as [Hin|Hin];
              [discriminate|]).
      by apply elem_of_nil in Hin.
    + discriminate.
    + exact Hw.
  - destruct (rejection_has_a_cause (H:=Refusing.node) Refusing.fetch
                {| x_start := (100, 0); x_opened := (100, 0); x_events := [] |}
                (Refusing.invalidProtocol "ftp:") eq_refl)
      as [[Hu _]|[[Hv _]|[Ht|[[now Hin]|[(Ht & _)|(_ & _ & now & Hin)]]]]].
    + vm_compute in Hu. discriminate.
    + discriminate.
    + exact Ht.
    + by apply elem_of_nil in Hin.
    + discriminate.
    + by apply elem_of_nil in Hin.
Defined.

(** A timeout that [setTimeout] refuses: the executor has made the
    request and attached its listeners, the promise is rejected with the
    error thrown, [request.end()] is not called, and the socket of the
    request is still listened to. *)
Example thrown_after_the_request_is_made :
  let p := makeSingleRequest (H:=Refusing.node) Refusing.hasty
             (100, 0) (100, 0) in
  settled p = Some (Rejected Refusing.outOfRange) /\
  (exists q, effects p = [Http1Request false q; SetTimeout (-1)]) /\
  timings (handle (H:=Refusing.node) Refusing.hasty (100, 1000000) EvSocket p)
    !! "socketOpen" = Some (0, 1000000).
Proof.
  split; [reflexivity|]. split; [eexists; reflexivity|].
  vm_compute. reflexivity.
Qed.

(** *** Which signal records which phase *)

Section Phases.
Context `{Node}.
Variable options : NettimeOptions.

Lemma timings_returnResult q : timings (returnResult options q) = timings q.
Proof. unfold returnResult, resolve. by destruct (settled q). Qed.

Lemma timings_reject e q : timings (reject e q) = timings q.
Proof. unfold reject. by destruct (settled q). Qed.

Lemma timings_writeOutputFile q :
  timings (writeOutputFile options q) = timings q.
Proof.
  unfold writeOutputFile. simpl.
  destruct (response q); [destruct (opt_includeHeaders options)|]; done.
Qed.

Lemma timings_checkSocketClosed now q k :
  k <> "socketClose" ->
  timings (checkSocketClosed options now q) !! k = timings q !! k.
Proof.
  intros Hk. unfold checkSocketClosed. destruct (socketClosed q); [done|].
  case_match; rewrite ?timings_writeOutputFile, ?timings_returnResult; simpl;
    by rewrite lookup_insert_ne.
Qed.

Lemma timings_handle now ev p k :
  k ∉ phasesOf ev ->
  timings (handle options now ev p) !! k = timings p !! k.
Proof.
  intros Hk. unfold handle. destruct (transport p) as [tr|]; [|done].
  assert (Hother : forall (k' : string) (v : hrtime) (m : gmap string hrtime),
             k ∉ [k'] -> <[k':=v]> m !! k = m !! k).
  { intros k' v m Hk'. apply lookup_insert_ne. intros <-. apply Hk'. by left. }
  destruct ev as [| | | | |m|headers|chunk| | |e| | |error]; simpl in Hk.
  - destruct tr; [|done]. simpl. by apply Hother.
  - destruct (onSocket p); [|done]. simpl. by apply Hother.
  - destruct (onSocket p); [|done]. simpl. by apply Hother.
  - destruct (onSocket p); [|done]. simpl. by apply Hother.
  - destruct (onSocket p); [|done]. apply timings_checkSocketClosed.
    intros ->. apply Hk. by left.
  - by destruct tr.
  - destruct tr; [done|]. by destruct (onResponse p).
  - destruct (onResponse p); [|done]. unfold checkFirstByte.
    destruct (firstByte p); simpl; destruct (data p); destruct chunk; simpl;
      try done; by apply Hother.
  - destruct (onResponse p); [|done]. destruct tr; simpl; by apply Hother.
  - destruct (closing p); [|done]. apply timings_checkSocketClosed.
    intros ->. apply Hk. by left.
  - by rewrite timings_reject.
  - destruct (truthyNum (opt_timeout options)); [|done].
    destruct tr; [by rewrite timings_reject|]. by destruct (onResponse p).
  - by destruct (truthyNum (opt_timeout options)).
  - unfold written. destruct (pendingWrites p); [done|].
    destruct error; [case_decide|];
      by rewrite ?timings_returnResult, ?timings_reject.
Qed.

Lemma timings_makeSingleRequest start opened k :
  is_Some (timings (makeSingleRequest options start opened) !! k) ->
  k = "socketOpen" /\ opt_httpVersion options = Some "2.0".
Proof.
  destruct (makeSingleRequest_executed options start opened)
    as [(_ & _ & _ & _ & _ & _ & _ & Hv & Hs & _ & -> & _) _].
  destruct (onSocket (makeSingleRequest options start opened));
    [|rewrite lookup_empty; by intros [? ?]].
  rewrite (proj1 Hs eq_refl) in Hv.
  rewrite lookup_insert_is_Some', lookup_empty. intros [<-|[? ?]]; done.
Qed.

Lemma probe_timings x k :
  is_Some (timings (probe options x) !! k) ->
  (k = "socketOpen" /\ opt_httpVersion options = Some "2.0") \/
  exists now ev, (now, ev) ∈ x_events x /\ k ∈ phasesOf ev.
Proof.
  apply (probe_invariant options
           (fun p => is_Some (timings p !! k) ->
                     (k = "socketOpen" /\ opt_httpVersion options = Some "2.0") \/
                     exists now ev, (now, ev) ∈ x_events x /\ k ∈ phasesOf ev)).
  - intros Hk. left. by apply (timings_makeSingleRequest (x_start x) (x_opened x)).
  - intros now ev p Hin Hp Hk.
    destruct (decide (k ∈ phasesOf ev)) as [Hin'|Hnot].
    + right. by exists now, ev.
    + rewrite timings_handle in Hk by done. by apply Hp.
Qed.

End Phases.

(** X9: the timings of a result hold a phase only if its signal came in
    the exchange: [dnsLookup] after a ['lookup'], [tcpConnection] after a
    ['connect'], [tlsHandshake] after a ['secureConnect'], [firstByte]
    after a ['readable'], [contentTransfer] after an ['end']; and they
    hold no key besides the seven phases. *)
Theorem phases_need_their_signal `{Node} (options : NettimeOptions)
    (x : Exchange) (r : Result) :
  outcome (probe options x) = Some (Resolved r) ->
  (is_Some (res_timings r !! "dnsLookup") ->
   exists now, (now, EvLookup) ∈ x_events x) /\
  (is_Some (res_timings r !! "tcpConnection") ->
   exists now, (now, EvConnect) ∈ x_events x) /\
  (is_Some (res_timings r !! "tlsHandshake") ->
   exists now, (now, EvSecureConnect) ∈ x_events x) /\
  (is_Some (res_timings r !! "firstByte") ->
   exists now chunk, (now, EvReadable chunk) ∈ x_events x) /\
  (is_Some (res_timings r !! "contentTransfer") ->
   exists now, (now, EvEnd) ∈ x_events x) /\
  (forall k, is_Some (res_timings r !! k) ->
             k ∈ ["socketOpen"; "dnsLookup"; "tcpConnection"; "tlsHandshake";
                  "firstByte"; "contentTransfer"; "socketClose"]).
Proof.
  intros Hout. apply outcome_resolved in Hout as (r0 & _ & ->). simpl.
  assert (Hk : forall k, is_Some (timings (probe options x) !! k) ->
                 k = "socketOpen" \/
                 exists now ev, (now, ev) ∈ x_events x /\ k ∈ phasesOf ev).
  { intros k Hk. apply probe_timings in Hk as [[-> _]|Hk]; auto. }
  assert (Hinv : forall ev k, k ∈ phasesOf ev ->
                   (k = "socketOpen" /\ ev = EvSocket) \/
                   (k = "dnsLookup" /\ ev = EvLookup) \/
                   (k = "tcpConnection" /\ ev = EvConnect) \/
                   (k = "tlsHandshake" /\ ev = EvSecureConnect) \/
                   (k = "socketClose") \/
                   (k = "firstByte" /\ exists chunk, ev = EvReadable chunk) \/
                   (k = "contentTransfer" /\ ev = EvEnd)).
  { intros ev k Hin. destruct ev; simpl in Hin;
      try (apply list_elem_of_singleton in Hin as ->);
      try (by apply elem_of_nil in Hin); eauto 12. }
  split; [|split; [|split; [|split; [|split]]]].
  - intros Ht. apply Hk in Ht as [?|(now & ev & Hin & Hph)]; [done|].
    exists now. apply Hinv in Hph.
    decompose [or and ex] Hph; subst; try discriminate; eauto.
  - intros Ht. apply Hk in Ht as [?|(now & ev & Hin & Hph)]; [done|].
    exists now. apply Hinv in Hph.
    decompose [or and ex] Hph; subst; try discriminate; eauto.
  - intros Ht. apply Hk in Ht as [?|(now & ev & Hin & Hph)]; [done|].
    exists now. apply Hinv in Hph.
    decompose [or and ex] Hph; subst; try discriminate; eauto.
  - intros Ht. apply Hk in Ht as [?|(now & ev & Hin & Hph)]; [done|].
    exists now. apply Hinv in Hph.
    decompose [or and ex] Hph; subst; try discriminate; eauto.
  - intros Ht. apply Hk in Ht as [?|(now & ev & Hin & Hph)]; [done|].
    exists now. apply Hinv in Hph.
    decompose [or and ex] Hph; subst; try discriminate; eauto.
  - intros k Ht. apply Hk in Ht as [->|(now & ev & Hin & Hph)].
    + by left.
    + apply Hinv in Hph. rewrite !elem_of_cons.
      decompose [or and ex] Hph; subst; auto 10.
Qed.

Lemma phases_need_their_signal_witness :
  exists r : Result,
    outcome (probe (H:=Sample.node) Cases.plain Cases.closed1)
    = Some (Resolved r) /\
    res_timings r !! "dnsLookup" = None /\
    res_timings r !! "tlsHandshake" = None.
Proof.
  destruct (outcome (probe (H:=Sample.node) Cases.plain Cases.closed1))
    as [[r|e]|] eqn:E; [|vm_compute in E; discriminate ..].
  exists r. split; [reflexivity|].
  destruct (phases_need_their_signal (H:=Sample.node) _ _ r E)
    as (Hdns & _ & Htls & _).
  split.
  - destruct (res_timings r !! "dnsLookup") eqn:Hl; [|done].
    destruct Hdns as [now Hin]; [by eexists|].
    exfalso. unfold Cases.closed1 in Hin. simpl in Hin.
    rewrite !elem_of_cons in Hin. rewrite elem_of_nil in Hin.
    decompose [or] Hin; discriminate || done.
  - destruct (res_timings r !! "tlsHandshake") eqn:Hl; [|done].
    destruct Htls as [now Hin]; [by eexists|].
    exfalso. unfold Cases.closed1 in Hin. simpl in Hin.
    rewrite !elem_of_cons in Hin. rewrite elem_of_nil in Hin.
    decompose [or] Hin; discriminate || done.
Defined.

(** *** The body and the output file *)

Lemma append_assoc (a b c : string) : (a +:+ b) +:+ c = a +:+ (b +:+ c).
Proof.
  induction a as [|x a IH]; [done|].
  change (String x ((a +:+ b) +:+ c) = String x (a +:+ (b +:+ c))).
  by rewrite IH.
Qed.

Lemma append_empty (a : string) : a +:+ "" = a.
Proof.
  induction a as [|x a IH]; [done|].
  change (String x (a +:+ "") = String x a). by rewrite IH.
Qed.

Section Body.
Context `{Node}.
Variable options : NettimeOptions.

(** The buffer is left alone unless headers are put before it. *)
Lemma data_checkSocketClosed now q :
  opt_includeHeaders options = false \/
  truthyStr (opt_outputFile options) = false ->
  data (checkSocketClosed options now q) = data q.
Proof.
  intros Hno. unfold checkSocketClosed. destruct (socketClosed q); [done|].
  unfold writeOutputFile, returnResult, resolve.
  destruct Hno as [-> | ->]; simpl.
  - case_match; [by destruct (response q)|by destruct (settled q)].
  - by destruct (settled q).
Qed.

Lemma data_written error q : data (written options error q) = data q.
Proof.
  unfold written, returnResult, resolve, reject.
  destruct (pendingWrites q); [done|].
  destruct error; [case_decide|]; simpl; by destruct (settled q).
Qed.

Lemma handle_data now ev p d :
  opt_includeHeaders options = false \/
  truthyStr (opt_outputFile options) = false ->
  is_Some (transport p) -> onResponse p = true -> data p = Some d ->
  data (handle options now ev p) = Some (d +:+ chunks [(now, ev)]).
Proof.
  intros Hno [tr Htr] Hon Hd. unfold handle. rewrite Htr, Hon.
  destruct ev as [| | | | |m|headers|chunk| | |e| | |error]; simpl;
    rewrite ?append_empty.
  - by destruct tr.
  - by destruct (onSocket p).
  - by destruct (onSocket p).
  - by destruct (onSocket p).
  - destruct (onSocket p); [|done]. by rewrite data_checkSocketClosed.
  - by destruct tr.
  - by destruct tr.
  - unfold checkFirstByte. destruct (firstByte p); simpl; rewrite Hd;
      destruct chunk; simpl; by rewrite ?append_empty.
  - by destruct tr.
  - destruct (closing p); [|done]. by rewrite data_checkSocketClosed.
  - unfold reject. by destruct (settled p).
  - destruct (truthyNum (opt_timeout options)); [|done].
    destruct tr; [|done]. unfold reject. simpl. by destruct (settled p).
  - by destruct (truthyNum (opt_timeout options)).
  - by rewrite data_written.
Qed.

Lemma chunks_cons now ev evs :
  chunks ((now, ev) :: evs) = chunks [(now, ev)] +:+ chunks evs.
Proof.
  destruct ev as [| | | | |m|headers|[c|]| | |e| | |error]; simpl; try done.
  by rewrite append_empty.
Qed.

Lemma foldl_handle_data evs :
  opt_includeHeaders options = false \/
  truthyStr (opt_outputFile options) = false ->
  forall p d,
    is_Some (transport p) -> onResponse p = true -> data p = Some d ->
    data (foldl (fun p ev => handle options ev.1 ev.2 p) p evs)
    = Some (d +:+ chunks evs).
Proof.
  intros Hno. induction evs as [|[now ev] evs IH]; intros p d Htr Hon Hd.
  - simpl. by rewrite append_empty.
  - cbn [foldl fst snd]. rewrite chunks_cons, <- append_assoc.
    destruct (handle_listening options now ev p (conj Htr Hon))
      as [Htr' Hon'].
    apply IH; [done|done|]. by apply handle_data.
Qed.

End Body.

(** X10: once the probe listens to the response, and unless the headers
    are to be put before the body in an output file, the buffer is what
    it was followed by the chunks read at the ['readable'] events since,
    in their order; a [null] read adds nothing. *)
Theorem body_is_the_chunks_in_order `{Node} (options : NettimeOptions)
    (start opened : hrtime) (before after : list (hrtime * Event))
    (d : string) :
  opt_includeHeaders options = false \/
  truthyStr (opt_outputFile options) = false ->
  let p := probe options {| x_start := start; x_opened := opened;
                            x_events := before |} in
  is_Some (transport p) -> onResponse p = true -> data p = Some d ->
  data (probe options {| x_start := start; x_opened := opened;
                         x_events := before ++ after |})
  = Some (d +:+ chunks after).
Proof.
  intros Hno p Htr Hon Hd. unfold probe. simpl. rewrite foldl_app.
  by apply foldl_handle_data.
Qed.

Lemma body_is_the_chunks_in_order_witness :
  data (probe (H:=Sample.node) Cases.bodyOnly
          {| x_start := (100, 0); x_opened := (100, 0);
             x_events :=
               [((100, 1000000), EvSocket);
                ((100, 900000000), EvResponse (Sample.ok "1.1"))]
               ++ [((100, 900500000), EvReadable (Some "hel"));
                   ((100, 900600000), EvReadable None);
                   ((100, 900700000), EvReadable (Some "lo"));
                   ((101, 100), EvEnd)] |})
  = Some "hello".
Proof.
  apply (body_is_the_chunks_in_order (H:=Sample.node) Cases.bodyOnly
           (100, 0) (100, 0)
           [((100, 1000000), EvSocket);
            ((100, 900000000), EvResponse (Sample.ok "1.1"))]
           [((100, 900500000), EvReadable (Some "hel"));
            ((100, 900600000), EvReadable None);
            ((100, 900700000), EvReadable (Some "lo"));
            ((101, 100), EvEnd)] "");
    [by left|by eexists|reflexivity|reflexivity].
Defined.




(** *** The request that is made *)

Lemma getHeader_setHeader_eq (key : string) (v : Value) (headers : Headers) :
  getHeader key (setHeader key v headers) = Some v.
Proof.
  induction headers as [|[k x] rest IH]; simpl.
  - by rewrite decide_True.
  - destruct (decide (k = key)) as [->|Hne]; simpl.
    + by rewrite decide_True.
    + by rewrite decide_False.
Qed.

Lemma getHeader_setHeader_ne (key key' : string) (v : Value) (headers : Headers) :
  key <> key' ->
  getHeader key' (setHeader key v headers) = getHeader key' headers.
Proof.
  intros Hne. induction headers as [|[k x] rest IH]; simpl.
  - by rewrite decide_False.
  - destruct (decide (k = key)) as [->|Hk]; simpl.
    + by rewrite !decide_False.
    + destruct (decide (k = key')); [done|]. apply IH.
Qed.

(** X12: the headers of the request are those of the caller, except
    that credentials replace [authorization] by [Basic] and the base64
    of [username:password], and that a body sets [content-length] to its
    length, whatever the caller gave, and [content-type] to the form
    encoding unless the caller gave one. *)
Theorem request_headers `{Node} (options : NettimeOptions) (q : Parameters) :
  getParameters options = inr q ->
  let given := default [] (opt_headers options) in
  (forall c, opt_credentials options = Some c ->
     getHeader "authorization" (prm_headers q)
     = Some (Str ("Basic " +:+ base64 (username c +:+ ":" +:+ password c)))) /\
  (opt_credentials options = None ->
   getHeader "authorization" (prm_headers q) = getHeader "authorization" given) /\
  (truthyStr (opt_data options) = true ->
   getHeader "content-length" (prm_headers q)
   = Some (Num (Z.of_nat (String.length (default "" (opt_data options))))) /\
   getHeader "content-type" (prm_headers q)
   = if truthyValue (getHeader "content-type" given)
     then getHeader "content-type" given
     else Some (Str "application/x-www-form-urlencoded")) /\
  (truthyStr (opt_data options) = false ->
   getHeader "content-length" (prm_headers q) = getHeader "content-length" given /\
   getHeader "content-type" (prm_headers q) = getHeader "content-type" given) /\
  (forall key,
      key <> "authorization" -> key <> "content-type" ->
      key <> "content-length" ->
      getHeader key (prm_headers q) = getHeader key given).
Proof.
  unfold getParameters. destruct (newURL (opt_url options)) as [u|]; [|done].
  intros Hq. injection Hq as <-. simpl.
  set (given := default [] (opt_headers options)).
  set (A := setCredentials options given).
  assert (HA : forall key, key <> "authorization" ->
                           getHeader key A = getHeader key given).
  { intros key Hk. unfold A, setCredentials.
    destruct (opt_credentials options); [|done].
    by rewrite getHeader_setHeader_ne. }
  assert (HB : forall key, key <> "content-type" -> key <> "content-length" ->
                 getHeader key (setContentType options A) = getHeader key A).
  { intros key Ht Hl. unfold setContentType.
    destruct (truthyStr (opt_data options)); [|done].
    rewrite getHeader_setHeader_ne by done.
    destruct (truthyValue (getHeader "content-type" A)); [done|].
    by rewrite getHeader_setHeader_ne. }
  split; [|split; [|split; [|split]]].
  - intros c Hc. rewrite HB by done. unfold A, setCredentials. rewrite Hc.
    apply getHeader_setHeader_eq.
  - intros Hc. rewrite HB by done. unfold A, setCredentials. by rewrite Hc.
  - intros Hd. unfold setContentType. rewrite Hd. split.
    + apply getHeader_setHeader_eq.
    + rewrite getHeader_setHeader_ne by done. rewrite (HA "content-type") by done.
      destruct (truthyValue (getHeader "content-type" given)).
      * by apply HA.
      * apply getHeader_setHeader_eq.
  - intros Hd. unfold setContentType. rewrite Hd. split; by apply HA.
  - intros key Ha Ht Hl. rewrite HB by done. by apply HA.
Qed.

Lemma request_headers_witness :
  exists q,
    getParameters (H:=Requests.node) Requests.posting = inr q /\
    getHeader "authorization" (prm_headers q) = Some (Str "Basic dXNlcjpwYXNz") /\
    getHeader "content-length" (prm_headers q) = Some (Num 7) /\
    getHeader "accept" (prm_headers q) = Some (Str "text/html").
Proof.
  destruct (getParameters (H:=Requests.node) Requests.posting) as [e|q] eqn:E;
    [vm_compute in E; discriminate|].
  exists q. split; [reflexivity|].
  destruct (request_headers (H:=Requests.node) Requests.posting q E)
    as (Hauth & _ & Hdata & _ & Hother).
  split; [exact (Hauth _ eq_refl)|]. split.
  - exact (proj1 (Hdata eq_refl)).
  - by apply Hother.
Defined.

Lemma effects_reject (e : JsError) (p : Probe) :
  effects (reject e p) = effects p.
Proof. unfold reject. by destruct (settled p). Qed.

Lemma call_appends `{Node} (c : Effect) (rest : Probe -> Probe) :
  (forall q, exists l, effects (rest q) = effects q ++ l) ->
  forall q, exists l, effects (call c rest q) = effects q ++ c :: l.
Proof.
  intros Hrest q. unfold call. destruct (throws (effects q) c).
  - exists []. by rewrite effects_reject.
  - destruct (Hrest (emit c q)) as [l Hl]. exists l. rewrite Hl. simpl.
    by rewrite <- app_assoc.
Qed.

Lemma sendRequest_appends `{Node} (options : NettimeOptions) (q : Probe) :
  exists l, effects (sendRequest options q) = effects q ++ l.
Proof.
  assert (Hid : forall q : Probe,
             exists l, effects ((fun p : Probe => p) q) = effects q ++ l).
  { intros p. exists []. by rewrite app_nil_r. }
  unfold sendRequest.
  destruct (truthyNum (opt_timeout options)),
           (truthyStr (opt_data options)).
  - destruct (call_appends (SetTimeout (default 0 (opt_timeout options)))
                (call (RequestWrite (default "" (opt_data options)))
                      (call RequestEnd (fun p => p)))) with (q := q)
      as [l Hl]; [|by eexists].
    intros p. destruct (call_appends
                          (RequestWrite (default "" (opt_data options)))
                          (call RequestEnd (fun p => p))) with (q := p)
      as [l Hl]; [|by eexists].
    intros p'. destruct (call_appends RequestEnd (fun p => p) Hid p')
      as [l Hl]. by eexists.
  - destruct (call_appends (SetTimeout (default 0 (opt_timeout options)))
                (call RequestEnd (fun p => p))) with (q := q)
      as [l Hl]; [|by eexists].
    intros p'. destruct (call_appends RequestEnd (fun p => p) Hid p')
      as [l Hl]. by eexists.
  - destruct (call_appends (RequestWrite (default "" (opt_data options)))
                (call RequestEnd (fun p => p))) with (q := q)
      as [l Hl]; [|by eexists].
    intros p'. destruct (call_appends RequestEnd (fun p => p) Hid p')
      as [l Hl]. by eexists.
  - destruct (call_appends RequestEnd (fun p => p) Hid q) as [l Hl].
    by eexists.
Qed.

(** X13: over HTTP/2, where the platform refuses neither
    [require('http2')] nor the connection, the client connects to
    scheme, host name and port of the URL and the request carries
    [:method] and, as [:path], the path name of the URL without its
    query string; over HTTP/1 the path of the request is the path name
    followed by the query string. *)
Theorem http2_path_has_no_query `{Node} (options : NettimeOptions)
    (u : URLRecord) (start opened : hrtime) :
  newURL (opt_url options) = Some u ->
  let method :=
    if truthyStr (opt_method options) then default "" (opt_method options)
    else if truthyStr (opt_data options) then "POST" else "GET" in
  let connect :=
    Http2Connect
      (if bool_decide (url_port u <> "")
       then "https://" +:+ url_hostname u +:+ ":" +:+ url_port u
       else "https://" +:+ url_hostname u)
      (opt_rejectUnauthorized options) in
  (opt_httpVersion options = Some "2.0" -> url_protocol u = "https:" ->
   throws [] RequireHttp2 = None ->
   throws [RequireHttp2] connect = None ->
   exists headers rest,
     effects (makeSingleRequest options start opened)
     = RequireHttp2 :: connect :: Http2Request headers :: rest /\
     getHeader ":path" headers = Some (Str (url_pathname u)) /\
     getHeader ":method" headers = Some (Str method)) /\
  (opt_httpVersion options <> Some "2.0" ->
   exists q rest,
     effects (makeSingleRequest options start opened)
     = Http1Request (bool_decide (url_protocol u <> "http:")) q :: rest /\
     prm_method q = method /\
     prm_path q = if bool_decide (url_pathname u <> "")
                  then Some (url_pathname u +:+ url_search u) else None).
Proof.
  intros Hu method connect. unfold makeSingleRequest, getParameters.
  rewrite Hu. cbn [prm_protocol withHeaders setSecurity parseURL]. split.
  - intros Hv Hs Hreq Hcon.
    rewrite decide_True by done. rewrite decide_False by tauto.
    unfold call at 1. cbn [effects initial]. rewrite Hreq.
    unfold makeHTTP2Request, getOrigin.
    cbn [prm_protocol prm_hostname prm_port prm_pathname prm_method
         prm_headers prm_rejectUnauthorized withHeaders setSecurity parseURL].
    rewrite Hs.
    assert (Hru : match opt_rejectUnauthorized options with
                  | Some b => Some b
                  | None => None
                  end = opt_rejectUnauthorized options)
      by by destruct (opt_rejectUnauthorized options).
    rewrite Hru.
    assert (Hc : Http2Connect
                   (if bool_decide (url_port u <> "")
                    then ("https:" +:+ "//" +:+ url_hostname u) +:+ ":" +:+
                         url_port u
                    else "https:" +:+ "//" +:+ url_hostname u)
                   (opt_rejectUnauthorized options) = connect).
    { unfold connect. by destruct (bool_decide (url_port u <> "")). }
    rewrite Hc. clearbody connect. unfold call at 1.
    cbn [effects emit initial app]. rewrite Hcon.
    match goal with
    | |- context [call (Http2Request ?hs) ?k ?p1] =>
        destruct (call_appends (Http2Request hs) k) with (q := p1)
          as [l Hl];
          [intros q; apply (sendRequest_appends options (listenToResponse q))|]
    end.
    eexists _, _. split; [rewrite Hl; reflexivity|]. unfold method. split.
    + apply getHeader_setHeader_eq.
    + rewrite getHeader_setHeader_ne by done. apply getHeader_setHeader_eq.
  - intros Hv. rewrite decide_False by done. unfold makeHTTP1Request.
    cbn [prm_protocol prm_method prm_path withHeaders setSecurity parseURL].
    match goal with
    | |- context [call (Http1Request ?s ?prm) ?k ?p1] =>
        destruct (call_appends (Http1Request s prm) k) with (q := p1)
          as [l Hl]
    end.
    { intros q. case_decide.
      - destruct (sendRequest_appends options
                    (emit EnforceHTTP10 (withTransport (Some Http1) q)))
          as [l Hl].
        eexists. rewrite Hl. simpl. by rewrite <- app_assoc.
      - destruct (sendRequest_appends options (withTransport (Some Http1) q))
          as [l Hl].
        by eexists. }
    eexists _, _. split; [rewrite Hl; reflexivity|]. by split.
Qed.

Lemma http2_path_has_no_query_witness :
  exists headers rest,
    effects (makeSingleRequest (H:=Requests.node) Requests.posting (100, 0)
               (100, 1000000))
    = RequireHttp2 :: Http2Connect "https://example.com" None
        :: Http2Request headers :: rest /\
    getHeader ":path" headers = Some (Str "/find") /\
    getHeader ":method" headers = Some (Str "POST").
Proof.
  exact (proj1 (http2_path_has_no_query (H:=Requests.node) Requests.posting
                  Requests.search (100, 0) (100, 1000000) eq_refl)
               eq_refl eq_refl eq_refl eq_refl).
Defined.

(** *** Runs that fail *)

Section FailingRuns.
Context `{Node}.
Variable net : nat -> Exchange.

Lemma requests_rejected d n :
  forall i options results trail e,
    returned (requests net d n i options results trail) = Some (Rejected e) ->
    exists k,
      (k < n)%nat /\
      outcome (probe (optionsAt options k) (net (i + k)%nat))
      = Some (Rejected e) /\
      (forall j, (j < k)%nat ->
         exists r, outcome (probe (optionsAt options j) (net (i + j)%nat))
                   = Some (Resolved r)) /\
      length (requested (log (requests net d n i options results trail)))
      = (length (requested trail) + S k)%nat.
Proof.
  induction n as [|n IH]; intros i options results trail e; simpl; [done|].
  destruct (outcome (probe options (net i))) as [[r|e']|] eqn:Hout; simpl;
    [| |done].
  - intros Hret. apply IH in Hret as (k & Hk & Hrej & Hbefore & Hlen).
    exists (S k). split; [lia|]. split; [|split].
    + rewrite optionsAt_set in Hrej.
      by replace (i + S k)%nat with (S i + k)%nat by lia.
    + intros [|j] Hj.
      * exists r. simpl. by rewrite Nat.add_0_r.
      * destruct (Hbefore j ltac:(lia)) as [r' Hr']. exists r'.
        rewrite optionsAt_set in Hr'.
        by replace (i + S j)%nat with (S i + j)%nat by lia.
    + rewrite Hlen. unfold requested. destruct (truthyNum d);
        rewrite !omap_app, !length_app; simpl; lia.
  - intros [= <-]. exists 0%nat. split; [lia|]. split; [|split].
    + simpl. by rewrite Nat.add_0_r.
    + intros j Hj. lia.
    + unfold requested. rewrite omap_app, length_app. simpl. lia.
Qed.

End FailingRuns.

(** X14: a run of several requests that is rejected was rejected by one
    of its probes, all probes before it having resolved; the run makes
    no request after that one and returns none of the results it had. *)
Theorem run_stops_at_first_rejection `{Node} (net : nat -> Exchange)
    (options : NettimeOptions) (c : Z) (e : JsError) :
  opt_requestCount options = Some c -> 1 < c ->
  returned (nettime net options) = Some (Rejected e) ->
  exists k : nat,
    (k < Z.to_nat c)%nat /\
    outcome (probe (optionsAt options k) (net k)) = Some (Rejected e) /\
    (forall j, (j < k)%nat ->
       exists r, outcome (probe (optionsAt options j) (net j))
                 = Some (Resolved r)) /\
    length (requested (log (nettime net options))) = S k.
Proof.
  intros Hc Hgt. rewrite (nettime_many net options c) by done.
  intros Hret. apply requests_rejected in Hret as (k & Hk & Hrej & Hb & Hlen).
  exists k. done.
Qed.

Lemma run_stops_at_first_rejection_witness :
  returned (nettime (H:=Sample.node) Failing.secondRefused Failing.thrice)
  = Some (Rejected Failing.refused) /\
  length (requested (log (nettime (H:=Sample.node) Failing.secondRefused
                            Failing.thrice))) = 2%nat.
Proof.
  split; [reflexivity|].
  destruct (run_stops_at_first_rejection (H:=Sample.node) Failing.secondRefused
              Failing.thrice 3 Failing.refused eq_refl ltac:(lia) eq_refl)
    as (k & Hk & Hrej & Hbefore & ->).
  destruct k as [|[|k]].
  - vm_compute in Hrej. discriminate.
  - reflexivity.
  - destruct (Hbefore 1%nat ltac:(lia)) as [r Hr]. vm_compute in Hr.
    discriminate.
Defined.

(** X15: a URL that [new URL] refuses rejects every probe with the
    error of code ERR_INVALID_URL before anything is done, and so the
    entry operation after one attempt. *)
Theorem invalid_url_is_rejected_first `{Node} (options : NettimeOptions)
    (net : nat -> Exchange) :
  newURL (opt_url options) = None ->
  (forall x : Exchange,
      outcome (probe options x) = Some (Rejected (invalidURL (opt_url options))) /\
      effects (probe options x) = [] /\
      timings (probe options x) = ∅) /\
  returned (nettime net options)
  = Some (Rejected (invalidURL (opt_url options))) /\
  length (requested (log (nettime net options))) = 1%nat /\
  code (invalidURL (opt_url options)) = Some "ERR_INVALID_URL".
Proof.
  intros Hu.
  assert (Hp : forall x, probe options x
                         = reject (invalidURL (opt_url options))
                                  (initial options (x_start x))).
  { intros x.
    assert (Hm : makeSingleRequest options (x_start x) (x_opened x)
                 = reject (invalidURL (opt_url options))
                          (initial options (x_start x))).
    { unfold makeSingleRequest, getParameters. by rewrite Hu. }
    rewrite probe_unmade; rewrite Hm; done. }
  split; [|split; [|split]].
  - intros x. by rewrite Hp.
  - unfold nettime, greaterThanOne.
    destruct (opt_requestCount options) as [c|]; simpl; [|by rewrite Hp].
    case_bool_decide; simpl; [|by rewrite Hp].
    destruct (Z.to_nat c) as [|n] eqn:En; [lia|]. simpl. by rewrite Hp.
  - unfold nettime, greaterThanOne.
    destruct (opt_requestCount options) as [c|]; simpl; [|done].
    case_bool_decide; simpl; [|done].
    destruct (Z.to_nat c) as [|n] eqn:En; [lia|]. simpl. by rewrite Hp.
  - done.
Qed.

Lemma invalid_url_is_rejected_first_witness :
  returned (nettime (H:=Sample.node) Sample.steady
              (Sample.request "example.com" None))
  = Some (Rejected (invalidURL "example.com")).
Proof.
  exact (proj1 (proj2 (invalid_url_is_rejected_first (H:=Sample.node)
                         (Sample.request "example.com" None) Sample.steady
                         eq_refl))).
Defined.

(** *** The averaging fold, at its edges *)

Lemma checkStatusCodes_skips (pre rest : list Result) :
  Forall (fun r => res_statusCode r = None) pre ->
  checkStatusCodes None (pre ++ rest) = checkStatusCodes None rest.
Proof.
  induction 1 as [|r pre Hr _ IH]; [done|]. simpl. by rewrite Hr.
Qed.

(** X16: the averaging fold fails on an empty Run Set; Results without
    a status code that come first are passed over, the check starting at
    the first code it meets; and the averaged Result has the version,
    code and message of the first Result and neither headers nor
    body. *)
Theorem average_at_the_edges :
  (exists e, computeAverageTimings [] = inl e) /\
  (forall (pre rest : list Result),
      Forall (fun r => res_statusCode r = None) pre ->
      checkStatusCodes None (pre ++ rest) = checkStatusCodes None rest) /\
  (forall (results : list Result) (avg : Result),
      computeAverageTimings results = inr avg ->
      res_headers avg = None /\ res_response avg = None /\
      exists first,
        results !! 0%nat = Some first /\
        res_httpVersion avg = res_httpVersion first /\
        res_statusCode avg = res_statusCode first /\
        res_statusMessage avg = res_statusMessage first).
Proof.
  split; [by eexists|]. split; [apply checkStatusCodes_skips|].
  intros results avg. unfold computeAverageTimings, createAverageResult.
  destruct (checkStatusCodes None results); [done|].
  destruct (results !! 0%nat) as [first|]; [|done].
  intros [= <-]. simpl. repeat split. by exists first.
Qed.

Lemma average_at_the_edges_witness :
  exists avg,
    computeAverageTimings
      [{| res_timings := ∅; res_httpVersion := None; res_statusCode := None;
          res_statusMessage := None; res_headers := None;
          res_response := None |};
       Sample.status 200 "OK"] = inr avg /\
    res_statusCode avg = None.
Proof.
  destruct (computeAverageTimings
      [{| res_timings := ∅; res_httpVersion := None; res_statusCode := None;
          res_statusMessage := None; res_headers := None;
          res_response := None |};
       Sample.status 200 "OK"]) as [e|avg] eqn:E;
    [vm_compute in E; discriminate|].
  exists avg. split; [reflexivity|].
  destruct (proj2 (proj2 average_at_the_edges) _ avg E)
    as (_ & _ & first & Hfirst & _ & Hcode & _).
  injection Hfirst as <-. exact Hcode.
Defined.

(** *** Strings *)

Lemma length_append (a b : string) :
  String.length (a +:+ b) = (String.length a + String.length b)%nat.
Proof.
  induction a as [|x a IH]; [done|].
  change (S (String.length (a +:+ b)) = S (String.length a + String.length b)).
  by rewrite IH.
Qed.

Lemma substrTo_append (a b : string) : substrTo (String.length a) (a +:+ b) = a.
Proof.
  induction a as [|x a IH]; [by destruct b|].
  change (String x (substrTo (String.length a) (a +:+ b)) = String x a).
  by rewrite IH.
Qed.

Lemma substrFrom_append (a b : string) :
  substrFrom (String.length a) (a +:+ b) = b.
Proof.
  induction a as [|x a IH]; [by destruct b|].
  change (substrFrom (String.length a) (a +:+ b) = b). apply IH.
Qed.

Lemma substr_split (n : nat) (s : string) : substrTo n s +:+ substrFrom n s = s.
Proof.
  revert s. induction n as [|n IH]; intros [|x s]; try done.
  change (String x (substrTo n s +:+ substrFrom n s) = String x s).
  by rewrite IH.
Qed.

Lemma length_substrTo (n : nat) (s : string) :
  String.length (substrTo n s) = (n `min` String.length s)%nat.
Proof.
  revert s. induction n as [|n IH]; intros [|x s]; try done.
  simpl. by rewrite IH.
Qed.

Lemma length_substrFrom (n : nat) (s : string) :
  String.length (substrFrom n s) = (String.length s - n)%nat.
Proof.
  revert s. induction n as [|n IH]; intros [|x s]; try done.
  simpl. by rewrite IH.
Qed.

Lemma indexOf_split (c : Ascii.ascii) (s : string) (n : nat) :
  indexOf c s = Some n ->
  s = substrTo n s +:+ String c (substrFrom (S n) s) /\
  indexOf c (substrTo n s) = None.
Proof.
  revert n. induction s as [|x s IH]; intros n; simpl; [done|].
  destruct (decide (x = c)) as [->|Hne].
  - intros [= <-]. by destruct s.
  - destruct (indexOf c s) as [m|] eqn:Hm; [|done]. simpl. intros [= <-].
    destruct (IH m eq_refl) as [Hs Hnone]. split.
    + change (String x s
              = String x (substrTo m s +:+ String c (substrFrom (S m) s))).
      by rewrite <- Hs.
    + simpl. rewrite decide_False by done. by rewrite Hnone.
Qed.

(** *** The request line of HTTP/1.0 *)

Lemma enforcedFirstLine_cases (line : string) :
  enforcedFirstLine line = line \/
  (10 <= String.length line)%nat /\
  enforcedFirstLine line
  = substrTo (String.length line - 10) line +:+ "HTTP/1.0" +:+ CR +:+ LF.
Proof.
  unfold enforcedFirstLine.
  set (tail := substrFrom (String.length line - 10) line).
  destruct (bool_decide (substrTo 6 tail = "HTTP/1")); [|by left].
  destruct (bool_decide (substrTo 1 (substrFrom 6 tail) <> CR)); [|by left].
  destruct (bool_decide (substrTo 1 (substrFrom 6 tail) <> LF)); [|by left].
  cbn [andb]. case_bool_decide as Ht; [|by left]. right. split; [|done].
  assert (Hl : String.length (substrFrom 7 tail) = 3%nat) by by rewrite Ht.
  rewrite length_substrFrom in Hl. unfold tail in Hl.
  rewrite length_substrFrom in Hl. lia.
Qed.

(** X17: the patched [_storeHeader] turns a request line that ends in
    [HTTP/1.1] and the line break into the same line ending in
    [HTTP/1.0]; it never changes the length of a line, and a line it has
    patched is left as it is when patched again. *)
Theorem http10_request_line :
  (forall front : string,
      enforcedFirstLine (front +:+ "HTTP/1.1" +:+ CR +:+ LF)
      = front +:+ "HTTP/1.0" +:+ CR +:+ LF) /\
  (forall line : string,
      String.length (enforcedFirstLine line) = String.length line) /\
  (forall line : string,
      enforcedFirstLine (enforcedFirstLine line) = enforcedFirstLine line).
Proof.
  split; [|split].
  - intros front. unfold enforcedFirstLine.
    rewrite length_append.
    replace (String.length front + String.length ("HTTP/1.1" +:+ CR +:+ LF) - 10)%nat
      with (String.length front) by (simpl; lia).
    by rewrite substrTo_append, substrFrom_append.
  - intros line. destruct (enforcedFirstLine_cases line) as [->|[Hlen ->]];
      [done|].
    rewrite length_append, length_substrTo. simpl. lia.
  - intros line. destruct (enforcedFirstLine_cases line) as [E|[Hlen ->]];
      [by rewrite !E|].
    set (front := substrTo (String.length line - 10) line).
    unfold enforcedFirstLine. rewrite length_append.
    replace (String.length front + String.length ("HTTP/1.0" +:+ CR +:+ LF) - 10)%nat
      with (String.length front) by (simpl; lia).
    by rewrite substrFrom_append.
Qed.

Example http10_any_character_for_the_dot :
  enforcedFirstLine ("GET / HTTP/1x1" +:+ CR +:+ LF)
  = "GET / HTTP/1.0" +:+ CR +:+ LF /\
  enforcedFirstLine ("GET / HTTP/2.0" +:+ CR +:+ LF)
  = "GET / HTTP/2.0" +:+ CR +:+ LF.
Proof. split; reflexivity. Qed.

(** *** The command line *)

Section CommandLineFacts.
Variable trim toLowerCase : string -> string.


End CommandLineFacts.



Lemma getParameters_authorization `{Node} (options : NettimeOptions)
    (cr : NettimeRequestCredentials) (q : Parameters) :
  opt_credentials options = Some cr ->
  getParameters options = inr q ->
  getHeader "authorization" (prm_headers q)
  = Some (Str ("Basic " +:+ base64 (username cr +:+ ":" +:+ password cr))).
Proof.
  intros Hc. unfold getParameters.
  destruct (newURL (opt_url options)) as [u|]; [|done].
  intros [= <-]. simpl. unfold setContentType, setCredentials. rewrite Hc.
  destruct (truthyStr (opt_data options)); [|apply getHeader_setHeader_eq].
  rewrite getHeader_setHeader_ne by done.
  case_match; [|rewrite getHeader_setHeader_ne by done];
    apply getHeader_setHeader_eq.
Qed.

(** X19: credentials given as [user:password] are cut at the first
    colon, so that the user name holds no colon and the two parts with a
    colon between them are the argument again; the request then carries
    [authorization: Basic] and the base64 of the argument as it was
    given.  Credentials without a colon, or beginning with one, are the
    user name whole, the password being the one typed at the prompt. *)
Theorem credentials_argument `{Node} (trim toLowerCase : string -> string)
    (c : Commander) (url question user : string) :
  cmd_user c = Some user -> user <> "" ->
  (forall n, indexOf colonChar user = Some (S n) ->
     exists cr,
       parseCredentials (Some user) question = Some cr /\
       username cr +:+ ":" +:+ password cr = user /\
       indexOf colonChar (username cr) = None /\
       forall q,
         getParameters (cliOptions trim toLowerCase c url question) = inr q ->
         getHeader "authorization" (prm_headers q)
         = Some (Str ("Basic " +:+ base64 user))) /\
  (indexOf colonChar user = None \/ indexOf colonChar user = Some O ->
   parseCredentials (Some user) question
   = Some {| username := user; password := question |}).
Proof.
  intros Hc Hne.
  assert (Ht : truthyStr (Some user) = true) by (simpl; by rewrite bool_decide_true).
  split.
  - intros n Hn. unfold parseCredentials. rewrite Ht. simpl. rewrite Hn.
    destruct (indexOf_split _ _ _ Hn) as [Hsplit Hnone].
    assert (E : substrTo (S n) user +:+ ":" +:+ substrFrom (S (S n)) user = user)
      by (symmetry; exact Hsplit).
    eexists. split; [reflexivity|]. simpl. split; [exact E|].
    split; [done|]. intros q Hq.
    rewrite <- E at 1.
    apply (getParameters_authorization
             (cliOptions trim toLowerCase c url question)
             {| username := substrTo (S n) user;
                password := substrFrom (S (S n)) user |} q); [|done].
    simpl. rewrite Hc. unfold parseCredentials. rewrite Ht. simpl.
    by rewrite Hn.
  - intros Hi. unfold parseCredentials. rewrite Ht. simpl.
    by destruct Hi as [-> | ->].
Qed.

Lemma credentials_argument_witness :
  exists q,
    getParameters (H:=Sample.node)
      (cliOptions Shell.trim Shell.toLowerCase Shell.command
         "http://example.com/" "") = inr q /\
    getHeader "authorization" (prm_headers q) = Some (Str "Basic dXNlcjpwYXNz").
Proof.
  destruct (getParameters (H:=Sample.node)
              (cliOptions Shell.trim Shell.toLowerCase Shell.command
                 "http://example.com/" "")) as [e|q] eqn:E;
    [vm_compute in E; discriminate|].
  exists q. split; [reflexivity|].
  destruct (proj1 (credentials_argument (H:=Sample.node) Shell.trim
                     Shell.toLowerCase Shell.command "http://example.com/" ""
                     "user:pass" eq_refl ltac:(discriminate)) 3%nat eq_refl)
    as (cr & _ & _ & _ & Hauth).
  exact (Hauth q E).
Defined.

(** X20: the command line always sets [failOnOutputFileError] to false:
    a probe it starts is never rejected because the output file could
    not be written, such a failure printing the message, setting the
    exit code to 2 and resolving the probe; it is rejected only for an
    invalid URL, HTTP/2 without [https:], a call of the executor that
    throws, an error of the transport or, over HTTP/1, the connection
    timeout. *)
Theorem command_line_tolerates_failed_write `{Node}
    (trim toLowerCase : string -> string) (c : Commander)
    (url question : string) (x : Exchange) :
  let options := cliOptions trim toLowerCase c url question in
  (forall e, outcome (probe options x) = Some (Rejected e) ->
     (newURL url = None /\ e = invalidURL url) \/
     (cmd_http2 c = true /\ e = insecureScheme /\
      exists u, newURL url = Some u /\ url_protocol u <> "https:") \/
     thrown (makeSingleRequest options (x_start x) (x_opened x)) e \/
     (exists now, (now, EvError e) ∈ x_events x) \/
     (truthyNum (cmd_connectTimeout c) = true /\ e = timedOut /\
      cmd_http2 c = false /\
      exists now, (now, EvTimeout) ∈ x_events x)) /\
  (forall now e,
      (0 < pendingWrites (probe options x))%nat ->
      settled (probe options x) = None ->
      (exists r, outcome (probe options (extend x now (EvWritten (Some e))))
                 = Some (Resolved r)) /\
      effects (probe options (extend x now (EvWritten (Some e))))
      = effects (probe options x) ++ [ConsoleError (message e); SetExitCode 2]).
Proof.
  intros options. split.
  - intros e Hout.
    assert (Hs : settled (probe options x) = Some (Rejected e)).
    { unfold outcome in Hout.
      by destruct (settled (probe options x)) as [[?|?]|]. }
    apply probe_rejected in Hs
      as [?|[(Hv & -> & Hu)|[?|[?|[(Ht & -> & Hv & Hin)|(Hf & _)]]]]];
      auto.
    + right. left. split; [|done]. simpl in Hv.
      by destruct (cmd_http2 c), (cmd_http10 c).
    + do 4 right. split; [done|]. split; [done|]. split; [|done].
      simpl in Hv. by destruct (cmd_http2 c).
    + by destruct Hf.
  - intros now e Hpend Hnone. rewrite probe_extend.
    destruct (probe_sound options x) as (_ & _ & _ & _ & Hp & _).
    destruct (Hp Hpend) as (Htr & _).
    by apply (handle_write_error options now e (probe options x)).
Qed.

Lemma command_line_tolerates_failed_write_witness :
  (exists r,
      outcome (probe (H:=Sample.node)
                 (cliOptions Shell.trim Shell.toLowerCase Shell.command
                    "http://example.com/" "")
                 (extend Cases.closed1 (101, 900000)
                         (EvWritten (Some Cases.diskFull))))
      = Some (Resolved r)) /\
  thrown (H:=Refusing.node)
    (makeSingleRequest (H:=Refusing.node)
       (cliOptions Shell.trim Shell.toLowerCase Shell.command
          "ftp://example.com/" "") (100, 0) (100, 0))
    (Refusing.invalidProtocol "ftp:").
Proof.
  split.
  - apply (proj2 (command_line_tolerates_failed_write (H:=Sample.node)
                    Shell.trim Shell.toLowerCase Shell.command
                    "http://example.com/" "" Cases.closed1)
                 (101, 900000) Cases.diskFull);
      [vm_compute; lia|reflexivity].
  - destruct (proj1 (command_line_tolerates_failed_write (H:=Refusing.node)
                       Shell.trim Shell.toLowerCase Shell.command
                       "ftp://example.com/" ""
                       {| x_start := (100, 0); x_opened := (100, 0);
                          x_events := [] |})
                    (Refusing.invalidProtocol "ftp:") eq_refl)
      as [[Hu _]|[[Hh _]|[Ht|[[now Hin]|(Hc & _)]]]].
    + vm_compute in Hu. discriminate.
    + discriminate.
    + exact Ht.
    + by apply elem_of_nil in Hin.
    + discriminate.
Defined.
